(** * go-pidfile: pidfile record accessor and lock coordinator

    A shallow embedding of [pidfile.go] and [mutex.go].  The file system,
    the process table and the clock are explicit in a [World] record; the Go
    library functions the code calls ([strconv.Atoi], [bytes.TrimSpace],
    [fmt]'s [%d], [errors.Wrap], [errors.Cause], [os.IsNotExist],
    [atomicfile], [os.Remove], gopsutil's [process]) are modelled next to
    the functions that use them. *)

From Stdlib Require Import ZArith Lia List String Bool.
From Stdlib.Strings Require Import Byte.
From stdpp Require Import gmap strings list.
Import ListNotations.
Local Open Scope Z_scope.

(** ** Errors *)

Inductive Errno := ENOENT | EEXIST | EACCES | EPERM | EIO | ENOTDIR | ENOSPC.

Inductive NumErrKind := ErrSyntax | ErrRange.

(** Go [error] values that occur in the package.  A nil error is [None] of
    [option error]. *)
Inductive error : Type :=
| os_ErrNotExist
| os_ErrExist
| syscall_Errno (e : Errno)
| os_PathError (op : string) (path : string) (err : error)
| strconv_NumError (fn : string) (num : list byte) (kind : NumErrKind)
| errors_withMessage (cause : error) (msg : string)
| fmt_Errorf (msg : string).

(** [os.underlyingError]: a [*PathError] stands for the error it carries. *)
Definition os_underlyingError (err : error) : error :=
  match err with
  | os_PathError _ _ e => e
  | _ => err
  end.

(** [os.IsNotExist]: it looks through [*PathError] only, never through the
    wrappers of [github.com/pkg/errors]. *)
Definition os_IsNotExist (err : error) : bool :=
  match os_underlyingError err with
  | os_ErrNotExist => true
  | syscall_Errno ENOENT => true
  | _ => false
  end.

(** [errors.Wrap] and [errors.Wrapf]: nil stays nil, any other error becomes
    the cause of a new error that carries the message. *)
Definition errors_Wrap (err : option error) (msg : string) : option error :=
  match err with
  | None => None
  | Some e => Some (errors_withMessage e msg)
  end.

(** [errors.Cause]: follows the [Cause()] chain down to the first error that
    is not a wrapper, and returns that one; an error that is not a wrapper
    is returned as it is. *)
Fixpoint errors_Cause (err : error) : error :=
  match err with
  | errors_withMessage c _ => errors_Cause c
  | _ => err
  end.

(** [isWrappedNotExist] (mutex.go): the [for err != nil] loop.  One unit of
    [fuel] pays for one assignment [err = errors.Cause(err)]; [None] means
    the loop is still running when the fuel is gone. *)
Fixpoint isWrappedNotExist (fuel : nat) (err : option error) {struct fuel}
  : option bool :=
  match err with
  | None => Some false
  | Some e =>
      if os_IsNotExist e then Some true
      else match fuel with
           | O => None
           | S fuel' => isWrappedNotExist fuel' (Some (errors_Cause e))
           end
  end.

(** ** Integers, pids and time *)

(** [Pid] is [int32]; a Go [int] is 64 bits wide on the platforms modelled
    here (amd64, arm64). *)
Definition Pid := Z.

Definition intSize : Z := 64.
Definition maxUint64 : Z := 2 ^ 64 - 1.
Definition minInt : Z := - 2 ^ (intSize - 1).
Definition maxInt : Z := 2 ^ (intSize - 1) - 1.
Definition minInt32 : Z := - 2 ^ 31.
Definition maxInt32 : Z := 2 ^ 31 - 1.

(** The conversion [Pid(n)] of an [int]: the low 32 bits, read as signed. *)
Definition Pid_of_int (n : Z) : Pid := (n + 2 ^ 31) mod 2 ^ 32 - 2 ^ 31.

(** A [time.Time] instant, as nanoseconds since the Unix epoch. *)
Definition Time := Z.

Definition time_Unix (sec nsec : Z) : Time := sec * 10 ^ 9 + nsec.
Definition time_Before (t u : Time) : bool := t <? u.
(** [time.Time{}], January 1 of year 1. *)
Definition time_zero : Time := time_Unix (-62135596800) 0.

(** ** Bytes: [bytes.TrimSpace], [strconv.Atoi] and the verb [%d] *)

Definition byte_val (c : byte) : Z := Z.of_N (Byte.to_N c).

Definition is_digit (c : byte) : bool := (48 <=? byte_val c) && (byte_val c <=? 57).

Definition digit_byte (d : Z) : byte :=
  match Byte.of_N (Z.to_N (48 + d)) with
  | Some c => c
  | None => x30
  end.

(** The table [asciiSpace] of package bytes: tab, newline, vertical tab,
    form feed, carriage return and space. *)
Definition asciiSpace (c : byte) : bool :=
  match c with
  | x09 | x0a | x0b | x0c | x0d | x20 => true
  | _ => false
  end.

(** UTF-8 encodings of the code points above U+007F that [unicode.IsSpace]
    accepts: U+0085, U+00A0, U+1680, U+2000..U+200A, U+2028, U+2029, U+202F,
    U+205F and U+3000. *)
Definition unicodeSpace : list (list byte) :=
  [ [xc2; x85]; [xc2; xa0]; [xe1; x9a; x80];
    [xe2; x80; x80]; [xe2; x80; x81]; [xe2; x80; x82]; [xe2; x80; x83];
    [xe2; x80; x84]; [xe2; x80; x85]; [xe2; x80; x86]; [xe2; x80; x87];
    [xe2; x80; x88]; [xe2; x80; x89]; [xe2; x80; x8a];
    [xe2; x80; xa8]; [xe2; x80; xa9]; [xe2; x80; xaf];
    [xe2; x81; x9f]; [xe3; x80; x80] ].

Fixpoint has_prefix (pre s : list byte) : bool :=
  match pre, s with
  | [], _ => true
  | a :: pre', b :: s' => Byte.eqb a b && has_prefix pre' s'
  | _ :: _, [] => false
  end.

(** Number of bytes of the white-space rune that [s] starts with, from the
    encodings [encs]; 0 when [s] starts with none. *)
Definition space_width (encs : list (list byte)) (s : list byte) : nat :=
  match s with
  | [] => O
  | c :: _ =>
      if asciiSpace c then 1%nat
      else match find (fun enc => has_prefix enc s) encs with
           | Some enc => length enc
           | None => O
           end
  end.

Fixpoint trim_front (encs : list (list byte)) (n : nat) (s : list byte)
  : list byte :=
  match n with
  | O => s
  | S n' =>
      match space_width encs s with
      | O => s
      | k => trim_front encs n' (drop k s)
      end
  end.

(** [bytes.TrimSpace]: white-space runes are removed from the front, then
    from the back (the back is the front of the reversed slice, with the
    encodings reversed). *)
Definition bytes_TrimSpace (s : list byte) : list byte :=
  let s1 := trim_front unicodeSpace (length s) s in
  rev (trim_front (map (@rev byte) unicodeSpace) (length s1) (rev s1)).

(** The digit loop of [strconv.ParseUint] in base 10 with 64 bits: [n] is
    the value read so far. *)
Fixpoint ParseUint_loop (s : list byte) (n : Z) : Z + NumErrKind :=
  match s with
  | [] => inl n
  | c :: s' =>
      if is_digit c then
        let d := byte_val c - 48 in
        if n >=? maxUint64 / 10 + 1 then inr ErrRange
        else
          let n1 := n * 10 + d in
          if n1 >? maxUint64 then inr ErrRange
          else ParseUint_loop s' n1
      else inr ErrSyntax
  end.

Definition strconv_ParseUint (s : list byte) : Z + NumErrKind :=
  match s with
  | [] => inr ErrSyntax
  | _ => ParseUint_loop s 0
  end.

(** [strconv.ParseInt(s, 10, 0)]: an optional sign, [ParseUint] on the rest,
    then the check against the range of [int]. *)
Definition strconv_ParseInt (s : list byte) : Z + NumErrKind :=
  match s with
  | [] => inr ErrSyntax
  | c :: s' =>
      let neg := Byte.eqb c x2d in
      let digits := if Byte.eqb c x2b || neg then s' else s in
      match strconv_ParseUint digits with
      | inr ErrSyntax => inr ErrSyntax
      | r =>
          let un := match r with inl u => u | inr _ => maxUint64 end in
          let cutoff := 2 ^ (intSize - 1) in
          if negb neg && (un >=? cutoff) then inr ErrRange
          else if neg && (un >? cutoff) then inr ErrRange
          else match r with
               | inr k => inr k
               | inl _ => inl (if neg then - un else un)
               end
      end
  end.

(** [strconv.Atoi]: its fast path for short inputs computes what [ParseInt]
    computes; the error names the function and the input. *)
Definition strconv_Atoi (s : list byte) : Z + error :=
  match strconv_ParseInt s with
  | inl n => inl n
  | inr k => inr (strconv_NumError "Atoi" s k)
  end.

(** The decimal digits of [u >= 0], most significant first, as [fmt]'s
    integer formatting produces them: the last digit is [u mod 10], the
    digits before it are those of [u / 10]. *)
Fixpoint fmt_digits (fuel : nat) (u : Z) : list byte :=
  match fuel with
  | O => []
  | S fuel' =>
      if u <? 10 then [digit_byte u]
      else fmt_digits fuel' (u / 10) ++ [digit_byte (u mod 10)]
  end.

(** [fmt.Sprintf("%d", n)] for an [int] or a [Pid]: at most 20 digits. *)
Definition fmt_d (n : Z) : list byte :=
  if n <? 0 then x2d :: fmt_digits 20 (- n) else fmt_digits 20 n.

Definition Sprint_d (n : Z) : string := string_of_list_byte (fmt_d n).


(** ** The world outside the program *)

Record File := { content : list byte; mtime : Time }.

(** The collaborators of the package.  [files] holds the regular files by
    path and [dirs] the directories that exist.  For the pidfile at [path],
    [MkdirAll_creates path] are the directories that
    [os.MkdirAll(filepath.Dir(path), 0755)] creates on its way (none when
    they all exist), whether it then returns nil or not, and
    [fault_MkdirAll path] is the error it returns.  The other [fault_]
    fields say which step of the file system fails for a reason of its own
    (a parent that is no directory, permission, I/O), [None] meaning that
    it does not.  [proc_NewProcess] and [proc_CreateTime] are gopsutil's
    answers for a pid, the creation time in milliseconds since the Unix
    epoch. *)
Record World := {
  os_Getpid : Z;
  clock : Time;
  files : gmap string File;
  dirs : gset string;
  MkdirAll_creates : string -> gset string;
  fault_MkdirAll : string -> option error;
  fault_New : string -> option error;
  fault_Fprintf : string -> option error;
  fault_Close : string -> option error;
  fault_ReadFile : string -> option error;
  fault_Remove : string -> option error;
  proc_NewProcess : Z -> option error;
  proc_CreateTime : Z -> Z + error
}.

Definition set_files (w : World) (fs : gmap string File) : World :=
  {| os_Getpid := os_Getpid w; clock := clock w; files := fs;
     dirs := dirs w; MkdirAll_creates := MkdirAll_creates w;
     fault_MkdirAll := fault_MkdirAll w; fault_New := fault_New w;
     fault_Fprintf := fault_Fprintf w; fault_Close := fault_Close w;
     fault_ReadFile := fault_ReadFile w; fault_Remove := fault_Remove w;
     proc_NewProcess := proc_NewProcess w;
     proc_CreateTime := proc_CreateTime w |}.

Definition set_dirs (w : World) (ds : gset string) : World :=
  {| os_Getpid := os_Getpid w; clock := clock w; files := files w;
     dirs := ds; MkdirAll_creates := MkdirAll_creates w;
     fault_MkdirAll := fault_MkdirAll w; fault_New := fault_New w;
     fault_Fprintf := fault_Fprintf w; fault_Close := fault_Close w;
     fault_ReadFile := fault_ReadFile w; fault_Remove := fault_Remove w;
     proc_NewProcess := proc_NewProcess w;
     proc_CreateTime := proc_CreateTime w |}.

Definition enoent (op path : string) : error :=
  os_PathError op path (syscall_Errno ENOENT).

(** [ioutil.ReadFile].  A failure of its own comes first, whether the file
    is there or not: a path under a parent that is no directory fails with
    ENOTDIR, under one that may not be searched with EACCES.  Without one,
    a file that is not there gives ENOENT. *)
Definition ioutil_ReadFile (w : World) (path : string) : list byte + error :=
  match fault_ReadFile w path with
  | Some e => inr e
  | None =>
      match files w !! path with
      | None => inr (enoent "open" path)
      | Some f => inl (content f)
      end
  end.

(** [os.MkdirAll(filepath.Dir(path), 0755)] for the pidfile at [path]: the
    directories it creates exist afterwards, also when it returns an
    error. *)
Definition os_MkdirAll (w : World) (path : string) : option error * World :=
  (fault_MkdirAll w path, set_dirs w (dirs w ∪ MkdirAll_creates w path)).

(** [os.Remove]. *)
Definition os_Remove (w : World) (path : string) : option error * World :=
  match fault_Remove w path with
  | Some e => (Some e, w)
  | None =>
      match files w !! path with
      | None => (Some (enoent "remove" path), w)
      | Some _ => (None, set_files w (delete path (files w)))
      end
  end.

(** An [atomicfile.File]: what was written so far sits in a temporary file
    ([af_buf]) until [Close] renames it over [af_path]; [Abort] throws the
    temporary file away and leaves [af_path] as it was. *)
Record AtomicFile := { af_path : string; af_buf : list byte }.

Definition atomicfile_New (w : World) (path : string) : AtomicFile + error :=
  match fault_New w path with
  | Some e => inr e
  | None => inl {| af_path := path; af_buf := [] |}
  end.

Definition atomicfile_Fprintf (w : World) (f : AtomicFile) (d : list byte)
  : AtomicFile + error :=
  match fault_Fprintf w (af_path f) with
  | Some e => inr e
  | None => inl {| af_path := af_path f; af_buf := af_buf f ++ d |}
  end.

Definition atomicfile_Close (w : World) (f : AtomicFile) : World + error :=
  match fault_Close w (af_path f) with
  | Some e => inr e
  | None =>
      inl (set_files w
             (<[af_path f := {| content := af_buf f; mtime := clock w |}]>
                (files w)))
  end.

(** ** pidfile.go *)

Record pidfile := { path : string }.

Definition New (path : string) : pidfile * option error :=
  ({| path := path |}, None).

Definition Path (p : pidfile) : string := path p.

(** [pidfile.Write].  The result is the error and the world afterwards.
    What [os.MkdirAll] created stays on every path; on the error paths after
    it the deferred [Abort] discards the temporary file, so the regular
    files are the ones before the call.  The text written is [os.Getpid()],
    as in the source; the local [pid] is not used after its assignment. *)
Definition Write (p : pidfile) (pid : Pid) (w : World) : option error * World :=
  let pid := if pid =? 0 then Pid_of_int (os_Getpid w) else pid in
  match os_MkdirAll w (path p) with
  | (Some err, w1) =>
      (errors_Wrap (Some err)
         ("failed to create parent directories of pidfile: " +:+ path p), w1)
  | (None, w1) =>
      match atomicfile_New w1 (path p) with
      | inr err =>
          (errors_Wrap (Some err) ("error opening pidfile: " +:+ path p), w1)
      | inl f =>
          match atomicfile_Fprintf w1 f (fmt_d (os_Getpid w1)) with
          | inr err =>
              (errors_Wrap (Some err)
                 ("failed to write pid to pidfile: " +:+ path p), w1)
          | inl f' =>
              match atomicfile_Close w1 f' with
              | inr err =>
                  (errors_Wrap (Some err)
                     ("failed to close pidfile: " +:+ path p), w1)
              | inl w' => (None, w')
              end
          end
      end
  end.

(** [pidfile.Read]. *)
Definition Read (p : pidfile) (w : World) : Pid * option error :=
  match ioutil_ReadFile w (path p) with
  | inr err =>
      (0, errors_Wrap (Some err) ("failed to read pidfile: " +:+ path p))
  | inl d =>
      match strconv_Atoi (bytes_TrimSpace d) with
      | inr err =>
          (0, errors_Wrap (Some err)
                ("failed to parse pid from pidfile: " +:+ path p))
      | inl pid => (Pid_of_int pid, None)
      end
  end.

(** Modelled from the spec: the three-valued read that mutex.go calls
    ([lockPid, lockMtime, err := p.Read()]) is missing from pidfile.go, whose
    [Read] returns two values.  The spec's section 4.1 says that the
    coordinator's internal read "returns (pid, mtime, error)", the mtime
    being the file's last-modification time; on an error the pid and the
    time are zero values. *)
Definition Read_mtime (p : pidfile) (w : World) : Pid * Time * option error :=
  match Read p w with
  | (_, Some err) => (0, time_zero, Some err)
  | (pid, None) =>
      match files w !! path p with
      | Some f => (pid, mtime f, None)
      | None => (0, time_zero, Some (enoent "stat" (path p)))
      end
  end.

(** ** mutex.go *)

Record pidfileLock := { lock_pidfile : pidfile }.

Definition NewLock (path : string) : pidfileLock * option error :=
  match New path with
  | (p, Some err) => ({| lock_pidfile := p |}, Some err)
  | (p, None) => ({| lock_pidfile := p |}, None)
  end.

(** [pidfileLock.lockValid].  [errors.Wrap] of a nil error is nil, which
    is how a process that does not exist gives [(false, nil)]. *)
Definition lockValid (w : World) (pid : Pid) (mtime : Time)
  : bool * option error :=
  match proc_NewProcess w pid with
  | Some err =>
      let err := if os_IsNotExist err then None else Some err in
      (false, errors_Wrap err "failed to get process information")
  | None =>
      match proc_CreateTime w pid with
      | inr err =>
          let err := if os_IsNotExist err then None else Some err in
          (false, errors_Wrap err "failed to get process creation time")
      | inl procCreateUnixMs =>
          let procCreateTime := time_Unix (procCreateUnixMs ÷ 1000) 0 in
          (time_Before procCreateTime mtime, None)
      end
  end.

(** [pidfileLock.Holder].  [None] when [isWrappedNotExist] does not
    return within [fuel]. *)
Definition Holder (fuel : nat) (p : pidfileLock) (w : World)
  : option (Pid * option error) :=
  match Read_mtime (lock_pidfile p) w with
  | (_, _, Some err) =>
      match isWrappedNotExist fuel (Some err) with
      | None => None
      | Some true => Some (0, None)
      | Some false => Some (0, errors_Wrap (Some err) "failed to read pidfile")
      end
  | (lockPid, lockMtime, None) =>
      match lockValid w lockPid lockMtime with
      | (_, Some err) => Some (0, errors_Wrap (Some err) "failed to validate lock")
      | (false, None) => Some (0, None)
      | (true, None) => Some (lockPid, None)
      end
  end.

(** [pidfileLock.Lock]. *)
Definition Lock (fuel : nat) (p : pidfileLock) (pid : Pid) (w : World)
  : option (option error * World) :=
  let pid := if pid =? 0 then Pid_of_int (os_Getpid w) else pid in
  match Holder fuel p w with
  | None => None
  | Some (_, Some err) =>
      Some (errors_Wrap (Some err) "failed to examine existing lock", w)
  | Some (lockPid, None) =>
      if negb (lockPid =? 0) then Some (Some os_ErrExist, w)
      else
        match Write (lock_pidfile p) pid w with
        | (Some err, w') => Some (errors_Wrap (Some err) "failed to write pidfile", w')
        | (None, w') => Some (None, w')
        end
  end.

(** [pidfileLock.Unlock]. *)
Definition Unlock (fuel : nat) (p : pidfileLock) (pid : Pid) (w : World)
  : option (option error * World) :=
  let pid := if pid =? 0 then Pid_of_int (os_Getpid w) else pid in
  match Read_mtime (lock_pidfile p) w with
  | (_, _, Some err) =>
      match isWrappedNotExist fuel (Some err) with
      | None => None
      | Some true => Some (Some os_ErrNotExist, w)
      | Some false => Some (errors_Wrap (Some err) "failed to read pid", w)
      end
  | (lockPid, lockMtime, None) =>
      match lockValid w lockPid lockMtime with
      | (_, Some err) => Some (errors_Wrap (Some err) "failed to validate lock", w)
      | (false, None) => Some (Some os_ErrNotExist, w)
      | (true, None) =>
          if negb (lockPid =? pid) then
            Some (Some (fmt_Errorf
                          ("pidfile is held by " +:+ Sprint_d lockPid +:+
                           "; lock cannot be released by " +:+ Sprint_d pid)), w)
          else
            match os_Remove w (path (lock_pidfile p)) with
            | (Some err, w') => Some (errors_Wrap (Some err) "failed to remove pidfile", w')
            | (None, w') => Some (None, w')
            end
      end
  end.

(** ** Vocabulary of the properties *)

(** The reading of "signed decimal integer" that the properties of [Read]
    are stated with: an optional sign, then one digit or more. *)

Definition decimal_split (s : list byte) : bool * list byte :=
  match s with
  | [] => (false, [])
  | c :: s' =>
      if Byte.eqb c x2d then (true, s')
      else if Byte.eqb c x2b then (false, s')
      else (false, s)
  end.

Definition is_decimal (s : list byte) : bool :=
  match snd (decimal_split s) with
  | [] => false
  | ds => forallb is_digit ds
  end.

Definition digits_value (ds : list byte) (n : Z) : Z :=
  fold_left (fun n c => n * 10 + (byte_val c - 48)) ds n.

Definition decimal_value (s : list byte) : Z :=
  let '(neg, ds) := decimal_split s in
  if neg then - digits_value ds 0 else digits_value ds 0.

(** A byte of a printed number: a digit or the minus sign. *)
Definition is_numeral (c : byte) : bool := is_digit c || Byte.eqb c x2d.

Definition no_write_fault (w : World) (path : string) : Prop :=
  fault_MkdirAll w path = None /\ fault_New w path = None /\
  fault_Fprintf w path = None /\ fault_Close w path = None.

(** The world after [os.MkdirAll] ran for the pidfile: the directories it
    creates exist, everything else is as before. *)
Definition made_dirs (p : pidfile) (w : World) : World :=
  set_dirs w (dirs w ∪ MkdirAll_creates w (path p)).

(** The world after a write that went through: the directories are made and
    the pidfile holds the text of [os.Getpid()], stamped with the clock. *)
Definition written (p : pidfile) (w : World) : World :=
  set_files (made_dirs p w)
    (<[path p := {| content := fmt_d (os_Getpid w); mtime := clock w |}]>
       (files w)).

(** The answer of the process table for a pid, as [lockValid] asks for it:
    the creation time in milliseconds, or the error of the step that
    failed. *)
Definition process_query (w : World) (pid : Pid) : Z + error :=
  match proc_NewProcess w pid with
  | Some e => inr e
  | None => proc_CreateTime w pid
  end.

(** "Not found": the cause of the error is a not-exist error. *)
Definition is_NotFound (e : error) : bool := os_IsNotExist (errors_Cause e).

(** "Malformed content": the cause of the error is [strconv]'s. *)
Definition is_Malformed (e : error) : bool :=
  match errors_Cause e with
  | strconv_NumError _ _ _ => true
  | _ => false
  end.

(** The pid that [Lock] and [Unlock] work with: the caller's own for 0. *)
Definition resolve_pid (w : World) (pid : Pid) : Pid :=
  if pid =? 0 then Pid_of_int (os_Getpid w) else pid.

(** The world after the pidfile was removed. *)
Definition removed (p : pidfile) (w : World) : World :=
  set_files w (delete (path p) (files w)).

(** The error of [Unlock] for a lock that another pid holds. *)
Definition not_owner_error (lockPid pid : Pid) : error :=
  fmt_Errorf ("pidfile is held by " +:+ Sprint_d lockPid +:+
              "; lock cannot be released by " +:+ Sprint_d pid).

(** ** Example worlds *)

Definition no_fault : string -> option error := fun _ => None.

Definition pidpath : string := "/run/app.pid".
Definition the_pidfile : pidfile := {| path := pidpath |}.
Definition the_lock : pidfileLock := {| lock_pidfile := the_pidfile |}.

(** The caller is process 42, created at 900 s; process 7 was created at
    10.9 s and process 1 at 0 s; there is no other process, and asking for
    process 13 fails for lack of permission. *)
Definition example_NewProcess (pid : Z) : option error :=
  if (pid =? 42) || (pid =? 7) || (pid =? 1) then None
  else if pid =? 13 then Some (os_PathError "open" "/proc/13" (syscall_Errno EACCES))
  else Some (enoent "open" "/proc").

Definition example_CreateTime (pid : Z) : Z + error :=
  if pid =? 42 then inl 900000
  else if pid =? 7 then inl 10900
  else if pid =? 1 then inl 0
  else inr (enoent "open" "/proc").

Definition example_world (fs : gmap string File) : World :=
  {| os_Getpid := 42; clock := time_Unix 1000 250000000; files := fs;
     dirs := {[ "/run"%string ]}; MkdirAll_creates := fun _ => ∅;
     fault_MkdirAll := no_fault; fault_New := no_fault;
     fault_Fprintf := no_fault; fault_Close := no_fault;
     fault_ReadFile := no_fault; fault_Remove := no_fault;
     proc_NewProcess := example_NewProcess;
     proc_CreateTime := example_CreateTime |}.

Definition example_file (text : string) (t : Time) : gmap string File :=
  {[ pidpath := {| content := list_byte_of_string text; mtime := t |} ]}.

(** The example world where the parent of the pidfile is no directory but a
    regular file: there is no pidfile and reading its path fails with
    ENOTDIR. *)
Definition example_world_notdir : World :=
  {| os_Getpid := 42; clock := time_Unix 1000 250000000; files := ∅;
     dirs := ∅; MkdirAll_creates := fun _ => ∅;
     fault_MkdirAll :=
       fun _ => Some (os_PathError "mkdir" "/run" (syscall_Errno ENOTDIR));
     fault_New := no_fault; fault_Fprintf := no_fault; fault_Close := no_fault;
     fault_ReadFile :=
       fun path => Some (os_PathError "open" path (syscall_Errno ENOTDIR));
     fault_Remove :=
       fun path => Some (os_PathError "remove" path (syscall_Errno ENOTDIR));
     proc_NewProcess := example_NewProcess;
     proc_CreateTime := example_CreateTime |}.

(** A pidfile with the given bytes. *)
Definition example_bytes (d : list byte) (t : Time) : gmap string File :=
  {[ pidpath := {| content := d; mtime := t |} ]}.

(** * Properties *)

(** ** Errors and the loop of [isWrappedNotExist] *)

Lemma errors_Cause_idem (e : error) : errors_Cause (errors_Cause e) = errors_Cause e.
Proof. induction e; simpl; auto. Qed.

Lemma os_IsNotExist_withMessage (e : error) (msg : string) :
  os_IsNotExist (errors_withMessage e msg) = false.
Proof. reflexivity. Qed.

(** The loop returns [true] after at most one assignment when the cause of
    the error is a not-exist error. *)
Lemma isWrappedNotExist_cause (fuel : nat) (e : error) :
  os_IsNotExist (errors_Cause e) = true ->
  isWrappedNotExist (S fuel) (Some e) = Some true.
Proof.
  intros Hc. simpl. destruct (os_IsNotExist e); [reflexivity|].
  destruct fuel; simpl; rewrite Hc; reflexivity.
Qed.

(** The loop never ends on an error whose cause is anything else:
    [errors.Cause] returns that cause again and again. *)
Lemma isWrappedNotExist_diverges (fuel : nat) (e : error) :
  os_IsNotExist e = false ->
  os_IsNotExist (errors_Cause e) = false ->
  isWrappedNotExist fuel (Some e) = None.
Proof.
  revert e. induction fuel as [|fuel IH]; intros e He Hc; simpl; rewrite He.
  - reflexivity.
  - apply IH; [exact Hc | rewrite errors_Cause_idem; exact Hc].
Qed.

(** It returns [false] on nil only. *)
Lemma isWrappedNotExist_false (fuel : nat) (err : option error) :
  isWrappedNotExist fuel err = Some false -> err = None.
Proof.
  revert err. induction fuel as [|fuel IH]; intros [e|]; simpl; auto;
    destruct (os_IsNotExist e); try discriminate.
  intros H. apply IH in H. discriminate.
Qed.

Lemma isWrappedNotExist_mono (fuel fuel' : nat) (err : option error) (b : bool) :
  (fuel <= fuel')%nat ->
  isWrappedNotExist fuel err = Some b -> isWrappedNotExist fuel' err = Some b.
Proof.
  revert fuel' err. induction fuel as [|fuel IH]; intros fuel' [e|] Hle; simpl.
  - destruct fuel'; simpl; destruct (os_IsNotExist e); auto; discriminate.
  - destruct fuel'; auto.
  - destruct fuel' as [|fuel']; [lia|]. simpl.
    destruct (os_IsNotExist e); auto. apply IH. lia.
  - destruct fuel'; auto.
Qed.

(** ** Decimal text *)

Lemma digit_byte_val (d : Z) :
  0 <= d < 10 -> byte_val (digit_byte d) = 48 + d.
Proof.
  intros H.
  assert (d = 0 \/ d = 1 \/ d = 2 \/ d = 3 \/ d = 4 \/ d = 5 \/ d = 6 \/
          d = 7 \/ d = 8 \/ d = 9) as Hd by lia.
  repeat (destruct Hd as [-> | Hd]; [reflexivity|]). subst d. reflexivity.
Qed.

Lemma digit_byte_is_digit (d : Z) : 0 <= d < 10 -> is_digit (digit_byte d) = true.
Proof.
  intros H. unfold is_digit. rewrite (digit_byte_val d H).
  apply andb_true_intro. split; apply Z.leb_le; lia.
Qed.

Lemma ParseUint_loop_app (s t : list byte) (n : Z) :
  ParseUint_loop (s ++ t) n =
  match ParseUint_loop s n with
  | inl m => ParseUint_loop t m
  | inr k => inr k
  end.
Proof.
  revert n. induction s as [|c s IH]; intros n; simpl; [reflexivity|].
  destruct (is_digit c); [|reflexivity].
  destruct (n >=? maxUint64 / 10 + 1); [reflexivity|].
  destruct (n * 10 + (byte_val c - 48) >? maxUint64); [reflexivity|].
  apply IH.
Qed.

Lemma ParseUint_loop_digit (d n : Z) :
  0 <= d < 10 -> 0 <= n -> n * 10 + d <= maxUint64 ->
  ParseUint_loop [digit_byte d] n = inl (n * 10 + d).
Proof.
  intros Hd Hn Hmax. simpl.
  rewrite (digit_byte_is_digit d Hd), (digit_byte_val d Hd).
  replace (48 + d - 48) with d by lia.
  assert ((n >=? maxUint64 / 10 + 1) = false) as ->.
  { rewrite Z.geb_leb. apply Z.leb_gt. unfold maxUint64 in *.
    change (2 ^ 64 - 1) with 18446744073709551615 in *.
    change (18446744073709551615 / 10) with 1844674407370955161. lia. }
  assert ((n * 10 + d >? maxUint64) = false) as ->; [|reflexivity].
  rewrite Z.gtb_ltb. apply Z.ltb_ge. lia.
Qed.

(** Reading back the digits that [%d] prints gives the number. *)
Lemma ParseUint_loop_fmt_digits (fuel : nat) (u : Z) :
  0 <= u < 10 ^ Z.of_nat fuel -> u <= maxUint64 ->
  ParseUint_loop (fmt_digits fuel u) 0 = inl u.
Proof.
  revert u. induction fuel as [|fuel IH]; intros u Hu Hmax.
  - change (10 ^ Z.of_nat 0) with 1 in Hu. simpl. f_equal. lia.
  - simpl fmt_digits. destruct (u <? 10) eqn:Hlt.
    + apply Z.ltb_lt in Hlt. rewrite ParseUint_loop_digit; [f_equal|..]; lia.
    + apply Z.ltb_ge in Hlt. rewrite ParseUint_loop_app.
      assert (0 <= u / 10 < 10 ^ Z.of_nat fuel) as Hq.
      { split; [apply Z.div_pos; lia|].
        apply Z.div_lt_upper_bound; [lia|].
        rewrite Nat2Z.inj_succ, Z.pow_succ_r in Hu; lia. }
      pose proof (Z.div_mod u 10 ltac:(lia)) as Hdm.
      pose proof (Z.mod_pos_bound u 10 ltac:(lia)) as Hm.
      rewrite IH; [|exact Hq|lia].
      rewrite ParseUint_loop_digit; [f_equal|..]; lia.
Qed.

Lemma fmt_digits_nonempty (fuel : nat) (u : Z) : fmt_digits (S fuel) u <> [].
Proof.
  simpl. destruct (u <? 10); [discriminate|].
  destruct (fmt_digits fuel (u / 10)); discriminate.
Qed.

(** Every byte that [%d] prints for a number that is not negative is a
    digit. *)
Lemma fmt_digits_all_digits (fuel : nat) (u : Z) :
  0 <= u -> forallb is_digit (fmt_digits fuel u) = true.
Proof.
  revert u. induction fuel as [|fuel IH]; intros u Hu; simpl; [reflexivity|].
  destruct (u <? 10) eqn:Hlt.
  - apply Z.ltb_lt in Hlt. simpl. rewrite digit_byte_is_digit; [reflexivity|lia].
  - rewrite forallb_app, IH by (apply Z.div_pos; lia). simpl.
    rewrite digit_byte_is_digit; [reflexivity|].
    apply Z.mod_pos_bound. lia.
Qed.

Lemma strconv_ParseUint_fmt_digits (u : Z) :
  0 <= u <= maxUint64 -> strconv_ParseUint (fmt_digits 20 u) = inl u.
Proof.
  intros Hu. unfold strconv_ParseUint.
  pose proof (fmt_digits_nonempty 19 u) as Hne.
  destruct (fmt_digits 20 u) eqn:E; [congruence|]. rewrite <- E.
  apply ParseUint_loop_fmt_digits; [|lia].
  unfold maxUint64 in Hu. change (10 ^ Z.of_nat 20) with 100000000000000000000.
  change (2 ^ 64 - 1) with 18446744073709551615 in Hu. lia.
Qed.

Lemma strconv_Atoi_fmt_d (n : Z) :
  minInt <= n <= maxInt -> strconv_Atoi (fmt_d n) = inl n.
Proof.
  unfold minInt, maxInt, intSize. change (2 ^ (64 - 1)) with 9223372036854775808.
  intros Hn. unfold strconv_Atoi, strconv_ParseInt, fmt_d.
  destruct (n <? 0) eqn:Hneg.
  - apply Z.ltb_lt in Hneg. cbn [Byte.eqb orb negb andb].
    change (Byte.eqb x2d x2d) with true. change (Byte.eqb x2d x2b) with false.
    cbn [orb negb andb].
    rewrite strconv_ParseUint_fmt_digits
      by (unfold maxUint64; change (2 ^ 64 - 1) with 18446744073709551615; lia).
    unfold intSize. change (2 ^ (64 - 1)) with 9223372036854775808.
    assert ((- n >? 9223372036854775808) = false) as ->
      by (rewrite Z.gtb_ltb; apply Z.ltb_ge; lia).
    f_equal. lia.
  - apply Z.ltb_ge in Hneg.
    pose proof (fmt_digits_nonempty 19 n) as Hne.
    pose proof (fmt_digits_all_digits 20 n Hneg) as Hall.
    pose proof (strconv_ParseUint_fmt_digits n) as HP.
    destruct (fmt_digits 20 n) as [|c s] eqn:E; [congruence|].
    simpl in Hall. apply andb_prop in Hall as [Hc _].
    assert (Byte.eqb c x2d = false) as ->.
    { destruct (Byte.eqb c x2d) eqn:Heq; [|reflexivity].
      apply Byte.byte_dec_bl in Heq. subst c. discriminate. }
    assert (Byte.eqb c x2b = false) as ->.
    { destruct (Byte.eqb c x2b) eqn:Heq; [|reflexivity].
      apply Byte.byte_dec_bl in Heq. subst c. discriminate. }
    cbn [orb negb andb].
    rewrite HP
      by (unfold maxUint64; change (2 ^ 64 - 1) with 18446744073709551615; lia).
    unfold intSize. change (2 ^ (64 - 1)) with 9223372036854775808.
    assert ((n >=? 9223372036854775808) = false) as ->
      by (rewrite Z.geb_leb; apply Z.leb_gt; lia).
    reflexivity.
Qed.

(** ** [bytes.TrimSpace] leaves the text of [%d] alone *)

Lemma space_width_numeral (c : byte) (s : list byte) :
  is_numeral c = true ->
  space_width unicodeSpace (c :: s) = O /\
  space_width (map (@rev byte) unicodeSpace) (c :: s) = O.
Proof.
  destruct c; intros H; try discriminate H; split; reflexivity.
Qed.

Lemma trim_front_numeral (n : nat) (c : byte) (s : list byte) :
  is_numeral c = true ->
  trim_front unicodeSpace n (c :: s) = c :: s /\
  trim_front (map (@rev byte) unicodeSpace) n (c :: s) = c :: s.
Proof.
  intros H. destruct (space_width_numeral c s H) as [H1 H2].
  destruct n; [split; reflexivity|].
  split; cbn [trim_front]; [rewrite H1 | rewrite H2]; reflexivity.
Qed.

Lemma bytes_TrimSpace_numeral (c d : byte) (s t : list byte) :
  is_numeral c = true -> is_numeral d = true ->
  c :: s = t ++ [d] -> bytes_TrimSpace (c :: s) = c :: s.
Proof.
  intros Hc Hd E. unfold bytes_TrimSpace.
  rewrite (proj1 (trim_front_numeral _ c s Hc)).
  rewrite E, rev_app_distr. simpl rev at 1. simpl app.
  rewrite (proj2 (trim_front_numeral _ d (rev t) Hd)).
  simpl. rewrite rev_involutive. reflexivity.
Qed.

Lemma forallb_digit_ends (s : list byte) :
  s <> [] -> forallb is_digit s = true ->
  exists c s' t d, s = c :: s' /\ s = t ++ [d] /\
                   is_digit c = true /\ is_digit d = true.
Proof.
  intros Hne Hall. destruct s as [|c s']; [congruence|].
  destruct (exists_last Hne) as (t & d & E).
  exists c, s', t, d. repeat split; auto.
  - simpl in Hall. apply andb_prop in Hall. tauto.
  - rewrite E, forallb_app in Hall. simpl in Hall.
    apply andb_prop in Hall as [_ Hd]. apply andb_prop in Hd. tauto.
Qed.

Lemma bytes_TrimSpace_fmt_d (n : Z) : bytes_TrimSpace (fmt_d n) = fmt_d n.
Proof.
  unfold fmt_d. destruct (n <? 0) eqn:Hneg.
  - apply Z.ltb_lt in Hneg.
    destruct (forallb_digit_ends (fmt_digits 20 (- n)))
      as (c & s' & t & d & _ & E & _ & Hd).
    { apply fmt_digits_nonempty. } { apply fmt_digits_all_digits. lia. }
    apply (bytes_TrimSpace_numeral x2d d _ (x2d :: t)); [reflexivity| |].
    + unfold is_numeral. rewrite Hd. reflexivity.
    + rewrite E at 1. reflexivity.
  - apply Z.ltb_ge in Hneg.
    destruct (forallb_digit_ends (fmt_digits 20 n))
      as (c & s' & t & d & E1 & E & Hc & Hd).
    { apply fmt_digits_nonempty. } { apply fmt_digits_all_digits. lia. }
    rewrite E1. apply (bytes_TrimSpace_numeral c d s' t).
    + unfold is_numeral. rewrite Hc. reflexivity.
    + unfold is_numeral. rewrite Hd. reflexivity.
    + rewrite <- E1. exact E.
Qed.

(** ** What [strconv.Atoi] accepts *)

Lemma is_digit_bounds (c : byte) : is_digit c = true -> 0 <= byte_val c - 48 < 10.
Proof.
  unfold is_digit. intros H. apply andb_prop in H as [H1 H2].
  apply Z.leb_le in H1, H2. lia.
Qed.

Lemma digits_value_ge (ds : list byte) (n : Z) :
  forallb is_digit ds = true -> 0 <= n -> n <= digits_value ds n.
Proof.
  revert n. induction ds as [|c ds IH]; intros n Hall Hn; [simpl; lia|].
  simpl in Hall. apply andb_prop in Hall as [Hc Hall].
  pose proof (is_digit_bounds c Hc).
  specialize (IH (n * 10 + (byte_val c - 48)) Hall ltac:(lia)).
  change (digits_value (c :: ds) n)
    with (digits_value ds (n * 10 + (byte_val c - 48))).
  lia.
Qed.

Lemma maxUint64_cutoff : maxUint64 / 10 + 1 = 1844674407370955162.
Proof. reflexivity. Qed.

Lemma maxUint64_eq : maxUint64 = 18446744073709551615.
Proof. reflexivity. Qed.

(** The loop reads the value of a digit string that fits 64 bits. *)
Lemma ParseUint_loop_value (ds : list byte) (n : Z) :
  forallb is_digit ds = true -> 0 <= n -> digits_value ds n <= maxUint64 ->
  ParseUint_loop ds n = inl (digits_value ds n).
Proof.
  revert n. induction ds as [|c ds IH]; intros n Hall Hn Hmax; [reflexivity|].
  simpl in Hall. apply andb_prop in Hall as [Hc Hall].
  pose proof (is_digit_bounds c Hc) as Hd.
  pose proof (digits_value_ge ds (n * 10 + (byte_val c - 48)) Hall ltac:(lia)) as Hge.
  simpl. rewrite Hc, maxUint64_cutoff.
  change (digits_value (c :: ds) n)
    with (digits_value ds (n * 10 + (byte_val c - 48))) in Hmax.
  rewrite maxUint64_eq in *.
  assert ((n >=? 1844674407370955162) = false) as ->
    by (rewrite Z.geb_leb; apply Z.leb_gt; lia).
  assert ((n * 10 + (byte_val c - 48) >? 18446744073709551615) = false) as ->
    by (rewrite Z.gtb_ltb; apply Z.ltb_ge; lia).
  apply IH; [exact Hall | lia | exact Hmax].
Qed.

(** It reports a range error for one that does not. *)
Lemma ParseUint_loop_range (ds : list byte) (n : Z) :
  forallb is_digit ds = true -> 0 <= n <= maxUint64 ->
  maxUint64 < digits_value ds n ->
  ParseUint_loop ds n = inr ErrRange.
Proof.
  revert n. induction ds as [|c ds IH]; intros n Hall Hn Hmax.
  - simpl in Hmax. lia.
  - simpl in Hall. apply andb_prop in Hall as [Hc Hall].
    pose proof (is_digit_bounds c Hc) as Hd.
    simpl. rewrite Hc.
    destruct (n >=? maxUint64 / 10 + 1); [reflexivity|].
    destruct (n * 10 + (byte_val c - 48) >? maxUint64) eqn:Hgt; [reflexivity|].
    rewrite Z.gtb_ltb in Hgt. apply Z.ltb_ge in Hgt.
    apply IH; [exact Hall | lia | exact Hmax].
Qed.

(** It fails on every string that has a byte that is no digit. *)
Lemma ParseUint_loop_not_digits (ds : list byte) (n : Z) :
  forallb is_digit ds = false -> exists k, ParseUint_loop ds n = inr k.
Proof.
  revert n. induction ds as [|c ds IH]; intros n Hall; [discriminate|].
  simpl in Hall. simpl. destruct (is_digit c); [|eauto].
  destruct (n >=? maxUint64 / 10 + 1); [eauto|].
  destruct (n * 10 + (byte_val c - 48) >? maxUint64); [eauto|].
  apply IH. exact Hall.
Qed.

Lemma strconv_ParseInt_split (s : list byte) :
  s <> [] ->
  strconv_ParseInt s =
  let '(neg, ds) := decimal_split s in
  match strconv_ParseUint ds with
  | inr ErrSyntax => inr ErrSyntax
  | r =>
      let un := match r with inl u => u | inr _ => maxUint64 end in
      if negb neg && (un >=? 2 ^ 63) then inr ErrRange
      else if neg && (un >? 2 ^ 63) then inr ErrRange
      else match r with
           | inr k => inr k
           | inl _ => inl (if neg then - un else un)
           end
  end.
Proof.
  destruct s as [|c s]; [congruence|]. intros _.
  unfold strconv_ParseInt, decimal_split.
  destruct (Byte.eqb c x2d); [rewrite orb_true_r; reflexivity|].
  destruct (Byte.eqb c x2b); reflexivity.
Qed.

(** [Atoi] fails on what is not a signed decimal integer. *)
Lemma strconv_Atoi_not_decimal (s : list byte) :
  is_decimal s = false ->
  exists k, strconv_Atoi s = inr (strconv_NumError "Atoi" s k).
Proof.
  intros Hdec. unfold strconv_Atoi.
  destruct s as [|c0 s0] eqn:Es; [exists ErrSyntax; reflexivity|].
  rewrite <- Es in *. rewrite strconv_ParseInt_split by (subst s; discriminate).
  unfold is_decimal in Hdec.
  destruct (decimal_split s) as [neg ds]. simpl in Hdec.
  destruct ds as [|c ds]; [exists ErrSyntax; reflexivity|].
  destruct (ParseUint_loop_not_digits (c :: ds) 0 Hdec) as [k Hk].
  unfold strconv_ParseUint. rewrite Hk.
  destruct k; [exists ErrSyntax; reflexivity|].
  exists ErrRange. cbv zeta. rewrite maxUint64_eq.
  destruct neg; reflexivity.
Qed.

(** It returns the value of one that fits an [int], and reports a range
    error for one that does not. *)
Lemma strconv_Atoi_decimal (s : list byte) :
  is_decimal s = true ->
  strconv_Atoi s =
  if (minInt <=? decimal_value s) && (decimal_value s <=? maxInt)
  then inl (decimal_value s)
  else inr (strconv_NumError "Atoi" s ErrRange).
Proof.
  intros Hdec. unfold strconv_Atoi.
  assert (s <> []) as Hne by (intros ->; discriminate).
  rewrite strconv_ParseInt_split by exact Hne.
  unfold is_decimal, decimal_value in *.
  destruct (decimal_split s) as [neg ds]. simpl in Hdec.
  destruct ds as [|c ds]; [discriminate|].
  pose proof (digits_value_ge (c :: ds) 0 Hdec ltac:(lia)) as Hge.
  unfold minInt, maxInt, intSize. change (2 ^ (64 - 1)) with (2 ^ 63).
  set (M := 2 ^ 63). assert (M = 9223372036854775808) as HM by reflexivity.
  clearbody M.
  set (v := digits_value (c :: ds) 0) in *.
  unfold strconv_ParseUint.
  destruct (Z_le_gt_dec v maxUint64) as [Hle|Hgt].
  - rewrite (ParseUint_loop_value (c :: ds) 0 Hdec ltac:(lia) Hle).
    fold v. cbv zeta. destruct neg; cbn [negb andb].
    + rewrite Z.gtb_ltb.
      destruct (Z.ltb_spec M v), (Z.leb_spec (- M) (- v)),
        (Z.leb_spec (- v) (M - 1)); cbn [andb]; try reflexivity; lia.
    + rewrite Z.geb_leb.
      destruct (Z.leb_spec M v), (Z.leb_spec (- M) v),
        (Z.leb_spec v (M - 1)); cbn [andb]; try reflexivity; lia.
  - rewrite (ParseUint_loop_range (c :: ds) 0 Hdec); [|rewrite maxUint64_eq; lia|lia].
    cbv zeta. rewrite maxUint64_eq in *. rewrite Z.gtb_ltb, Z.geb_leb.
    destruct neg; cbn [negb andb].
    + destruct (Z.ltb_spec M 18446744073709551615), (Z.leb_spec (- M) (- v)),
        (Z.leb_spec (- v) (M - 1)); cbn [andb]; try reflexivity; lia.
    + destruct (Z.leb_spec M 18446744073709551615), (Z.leb_spec (- M) v),
        (Z.leb_spec v (M - 1)); cbn [andb]; try reflexivity; lia.
Qed.

(** ** [Write] *)

Lemma Write_no_fault (p : pidfile) (pid : Pid) (w : World) :
  no_write_fault w (path p) -> Write p pid w = (None, written p w).
Proof.
  intros (H1 & H2 & H3 & H4).
  unfold Write, os_MkdirAll, atomicfile_New, atomicfile_Fprintf,
    atomicfile_Close.
  cbn [set_dirs fault_New fault_Fprintf fault_Close af_path af_buf os_Getpid
       clock files app].
  rewrite H1, H2. cbn [af_path af_buf app]. rewrite H3. cbn [af_path af_buf].
  rewrite H4. reflexivity.
Qed.

(** A write that fails leaves the regular files as they were: the world is
    the one before the call with the directories of [os.MkdirAll]. *)
Lemma Write_error_made_dirs (p : pidfile) (pid : Pid) (w w' : World) (e : error) :
  Write p pid w = (Some e, w') -> w' = made_dirs p w.
Proof.
  unfold Write, os_MkdirAll. fold (made_dirs p w).
  destruct (fault_MkdirAll w (path p)); simpl; [congruence|].
  destruct (atomicfile_New (made_dirs p w) (path p)) as [f|]; simpl;
    [|congruence].
  destruct (atomicfile_Fprintf (made_dirs p w) f _) as [f'|]; simpl;
    [|congruence].
  destruct (atomicfile_Close (made_dirs p w) f'); simpl; congruence.
Qed.

Lemma ioutil_ReadFile_absent (w : World) (path : string) :
  files w !! path = None -> fault_ReadFile w path = None ->
  ioutil_ReadFile w path = inr (enoent "open" path).
Proof. intros H Hf. unfold ioutil_ReadFile. rewrite Hf, H. reflexivity. Qed.

Lemma ioutil_ReadFile_content (w : World) (path : string) (d : list byte) :
  ioutil_ReadFile w path = inl d ->
  fault_ReadFile w path = None /\
  exists f, files w !! path = Some f /\ content f = d.
Proof.
  unfold ioutil_ReadFile. destruct (fault_ReadFile w path); [discriminate|].
  destruct (files w !! path) as [f|]; [|discriminate].
  intros [= <-]. eauto.
Qed.

Lemma Read_absent (p : pidfile) (w : World) :
  files w !! path p = None -> fault_ReadFile w (path p) = None ->
  Read p w =
  (0, Some (errors_withMessage (enoent "open" (path p))
              ("failed to read pidfile: " +:+ path p))).
Proof.
  intros H Hf. unfold Read. rewrite ioutil_ReadFile_absent by assumption.
  reflexivity.
Qed.

(** A failure of [ioutil.ReadFile] comes back wrapped. *)
Lemma Read_ReadFile_error (p : pidfile) (w : World) (e : error) :
  ioutil_ReadFile w (path p) = inr e ->
  Read p w =
  (0, Some (errors_withMessage e ("failed to read pidfile: " +:+ path p))).
Proof. intros H. unfold Read. rewrite H. reflexivity. Qed.

(** What [Read] returns for a content that is a decimal integer in the range
    of [int]. *)
Lemma Read_decimal (p : pidfile) (w : World) (d : list byte) :
  ioutil_ReadFile w (path p) = inl d ->
  is_decimal (bytes_TrimSpace d) = true ->
  minInt <= decimal_value (bytes_TrimSpace d) <= maxInt ->
  Read p w = (Pid_of_int (decimal_value (bytes_TrimSpace d)), None).
Proof.
  intros Hd Hdec Hr. unfold Read. rewrite Hd, strconv_Atoi_decimal by exact Hdec.
  destruct (Z.leb_spec minInt (decimal_value (bytes_TrimSpace d))); [|lia].
  destruct (Z.leb_spec (decimal_value (bytes_TrimSpace d)) maxInt); [|lia].
  reflexivity.
Qed.

Lemma Pid_of_int_small (n : Z) : minInt32 <= n <= maxInt32 -> Pid_of_int n = n.
Proof.
  unfold minInt32, maxInt32, Pid_of_int. intros H.
  rewrite Z.mod_small; lia.
Qed.

Lemma Pid_of_int_range (n : Z) : minInt32 <= Pid_of_int n <= maxInt32.
Proof.
  unfold minInt32, maxInt32, Pid_of_int.
  pose proof (Z.mod_pos_bound (n + 2 ^ 31) (2 ^ 32) ltac:(lia)). lia.
Qed.

Lemma Pid_of_int_congruent (n : Z) : (Pid_of_int n - n) mod 2 ^ 32 = 0.
Proof.
  unfold Pid_of_int.
  rewrite (Z.mod_eq (n + 2 ^ 31) (2 ^ 32)) by lia.
  replace (n + 2 ^ 31 - 2 ^ 32 * ((n + 2 ^ 31) / 2 ^ 32) - 2 ^ 31 - n)
    with ((- ((n + 2 ^ 31) / 2 ^ 32)) * 2 ^ 32) by lia.
  apply Z.mod_mul. lia.
Qed.

(** After a write that went through, [Read] returns the pid of the process
    that wrote, whatever pid was passed to [Write]. *)
Lemma Write_then_Read (p : pidfile) (pid : Pid) (w : World) :
  no_write_fault w (path p) -> fault_ReadFile w (path p) = None ->
  minInt <= os_Getpid w <= maxInt ->
  Read p (snd (Write p pid w)) = (Pid_of_int (os_Getpid w), None).
Proof.
  intros Hw Hr Hpid. rewrite Write_no_fault by exact Hw.
  unfold Read, ioutil_ReadFile, written, made_dirs.
  cbn [snd set_files set_dirs files fault_ReadFile].
  rewrite Hr, lookup_insert_eq. cbn [content].
  rewrite bytes_TrimSpace_fmt_d, strconv_Atoi_fmt_d by exact Hpid.
  reflexivity.
Qed.

(** C1 (code defect).  Process 42 calls [Write(7)] on a pidfile and then
    [Read()]: the write goes through and the read returns 42, the pid of the
    caller, where the round trip asks for 7.  [Write] formats [os.Getpid()]
    and never the pid it was given. *)
Theorem Write_7_then_Read_returns_caller_pid :
  os_Getpid (example_world ∅) = 42 /\
  Write the_pidfile 7 (example_world ∅) =
    (None, written the_pidfile (example_world ∅)) /\
  Read the_pidfile (snd (Write the_pidfile 7 (example_world ∅))) = (42, None).
Proof.
  assert (no_write_fault (example_world ∅) (path the_pidfile)) as Hw
    by (repeat split).
  split; [reflexivity|]. split; [apply Write_no_fault; exact Hw|].
  rewrite Write_then_Read; [reflexivity | exact Hw | reflexivity |].
  split; discriminate.
Qed.

(** ** The lock coordinator *)

(** [lockValid] by the answer of the process table. *)
Lemma lockValid_query (w : World) (pid : Pid) (mt : Time) :
  match process_query w pid with
  | inl ms =>
      lockValid w pid mt = (time_Before (time_Unix (ms ÷ 1000) 0) mt, None)
  | inr e =>
      if os_IsNotExist e then lockValid w pid mt = (false, None)
      else exists msg,
          lockValid w pid mt = (false, Some (errors_withMessage e msg))
  end.
Proof.
  unfold process_query, lockValid.
  destruct (proc_NewProcess w pid) as [e|].
  - destruct (os_IsNotExist e); simpl; eauto.
  - destruct (proc_CreateTime w pid) as [ms|e]; [reflexivity|].
    destruct (os_IsNotExist e); simpl; eauto.
Qed.

Lemma Read_mtime_absent (p : pidfile) (w : World) :
  files w !! path p = None -> fault_ReadFile w (path p) = None ->
  Read_mtime p w =
  (0, time_zero,
   Some (errors_withMessage (enoent "open" (path p))
           ("failed to read pidfile: " +:+ path p))).
Proof.
  intros H Hf. unfold Read_mtime. rewrite Read_absent by assumption.
  reflexivity.
Qed.

Lemma Read_mtime_ReadFile_error (p : pidfile) (w : World) (e : error) :
  ioutil_ReadFile w (path p) = inr e ->
  Read_mtime p w =
  (0, time_zero,
   Some (errors_withMessage e ("failed to read pidfile: " +:+ path p))).
Proof.
  intros H. unfold Read_mtime. rewrite (Read_ReadFile_error p w e H).
  reflexivity.
Qed.

(** A record that was read was read without a failure of the file system. *)
Lemma Read_mtime_no_fault (p : pidfile) (w : World) (pid : Pid) (mt : Time) :
  Read_mtime p w = (pid, mt, None) -> fault_ReadFile w (path p) = None.
Proof.
  unfold Read_mtime, Read, ioutil_ReadFile.
  destruct (fault_ReadFile w (path p)); [discriminate|reflexivity].
Qed.

(** A record that was read comes from a file that is there. *)
Lemma Read_mtime_present (p : pidfile) (w : World) (pid : Pid) (mt : Time) :
  Read_mtime p w = (pid, mt, None) ->
  exists f, files w !! path p = Some f /\ mtime f = mt /\ Read p w = (pid, None).
Proof.
  unfold Read_mtime. destruct (Read p w) as [pid' [e|]]; [discriminate|].
  destruct (files w !! path p) as [f|]; [|discriminate].
  intros [= <- <-]. eauto.
Qed.

(** [Holder] when the read fails with a not-exist error. *)
Lemma Holder_not_exist (fuel : nat) (p : pidfileLock) (w : World) (e : error) :
  ioutil_ReadFile w (path (lock_pidfile p)) = inr e ->
  os_IsNotExist (errors_Cause e) = true ->
  Holder (S fuel) p w = Some (0, None).
Proof.
  intros H Hc. unfold Holder. rewrite (Read_mtime_ReadFile_error _ _ _ H).
  rewrite isWrappedNotExist_cause; [reflexivity | exact Hc].
Qed.

Lemma Holder_absent (fuel : nat) (p : pidfileLock) (w : World) :
  files w !! path (lock_pidfile p) = None ->
  fault_ReadFile w (path (lock_pidfile p)) = None ->
  Holder (S fuel) p w = Some (0, None).
Proof.
  intros H Hf. eapply Holder_not_exist;
    [apply ioutil_ReadFile_absent; assumption | reflexivity].
Qed.

(** [Holder] when the record was read: it is decided by [lockValid]. *)
Lemma Holder_read (fuel : nat) (p : pidfileLock) (w : World)
      (lockPid : Pid) (mt : Time) :
  Read_mtime (lock_pidfile p) w = (lockPid, mt, None) ->
  Holder fuel p w =
  match lockValid w lockPid mt with
  | (_, Some err) => Some (0, errors_Wrap (Some err) "failed to validate lock")
  | (false, None) => Some (0, None)
  | (true, None) => Some (lockPid, None)
  end.
Proof. intros H. unfold Holder. rewrite H. reflexivity. Qed.

(** A read failure that is not a not-exist error (a pidfile that does not
    parse, a pidfile that may not be read) sends [Holder] into the loop of
    [isWrappedNotExist] for good: no amount of fuel gives a result. *)
Lemma Holder_read_failure_diverges (fuel : nat) (p : pidfileLock) (w : World)
      (e : error) (pid : Pid) (mt : Time) :
  Read_mtime (lock_pidfile p) w = (pid, mt, Some e) ->
  os_IsNotExist (errors_Cause e) = false ->
  Holder fuel p w = None.
Proof.
  intros H Hc. unfold Holder. rewrite H.
  assert (os_IsNotExist e = false) as He.
  { unfold Read_mtime, Read in H.
    destruct (ioutil_ReadFile w (path (lock_pidfile p))) as [d|e0].
    - destruct (strconv_Atoi (bytes_TrimSpace d)) as [n|e1].
      + destruct (files w !! path (lock_pidfile p)); simpl in H;
          [discriminate|]. injection H as <- <- <-. discriminate Hc.
      + simpl in H. injection H as <- <- <-. reflexivity.
    - simpl in H. injection H as <- <- <-. reflexivity. }
  rewrite isWrappedNotExist_diverges; auto.
Qed.

Example Holder_malformed_pidfile_diverges (fuel : nat) :
  Holder fuel the_lock (example_world (example_file "abc" (time_Unix 900 0))) = None.
Proof.
  eapply Holder_read_failure_diverges; [vm_compute; reflexivity | reflexivity].
Qed.

(** [Holder] either returns with one unit of fuel, or never returns: the
    second is the case of a read failure whose cause is not a not-exist
    error. *)
Lemma Holder_returns_or_diverges (p : pidfileLock) (w : World) :
  (exists r, forall fuel, Holder (S fuel) p w = Some r) \/
  (forall fuel, Holder fuel p w = None).
Proof.
  destruct (Read_mtime (lock_pidfile p) w) as [[pid mt] [e|]] eqn:HR.
  - destruct (os_IsNotExist (errors_Cause e)) eqn:Hc.
    + left. exists (0, None). intros fuel. unfold Holder. rewrite HR.
      rewrite isWrappedNotExist_cause by exact Hc. reflexivity.
    + right. intros fuel. eapply Holder_read_failure_diverges; eauto.
  - left. exists (match lockValid w pid mt with
                  | (_, Some err) =>
                      (0, errors_Wrap (Some err) "failed to validate lock")
                  | (false, None) => (0, None)
                  | (true, None) => (pid, None)
                  end).
    intros fuel. rewrite (Holder_read _ _ _ _ _ HR).
    destruct (lockValid w pid mt) as [[|] [e|]]; reflexivity.
Qed.

(** More fuel does not change a result. *)
Lemma Holder_mono (fuel fuel' : nat) (p : pidfileLock) (w : World)
      (r : Pid * option error) :
  (fuel <= fuel')%nat -> Holder fuel p w = Some r -> Holder fuel' p w = Some r.
Proof.
  intros Hle. unfold Holder.
  destruct (Read_mtime (lock_pidfile p) w) as [[pid mt] [e|]]; [|auto].
  destruct (isWrappedNotExist fuel (Some e)) as [b|] eqn:Hb; [|discriminate].
  rewrite (isWrappedNotExist_mono fuel fuel' _ b Hle Hb). auto.
Qed.

(** What [Holder] returns.  It returns (0, nil) when the read of the pidfile
    fails with a not-exist error, as it does for a pidfile that is absent
    from a directory that can be searched; when the record was read it
    returns (0, nil) if the recorded
    process does not exist, (recorded pid, nil) if the process exists and
    its creation time cut to whole seconds is strictly before the mtime of
    the pidfile, (0, nil) if it exists and that time is not strictly before
    the mtime; a failure of the process table other than not-found is
    returned as an error that wraps it. *)
Theorem Holder_spec (fuel : nat) (p : pidfileLock) (w : World) :
  (forall e : error,
      ioutil_ReadFile w (path (lock_pidfile p)) = inr e ->
      os_IsNotExist (errors_Cause e) = true ->
      Holder (S fuel) p w = Some (0, None)) /\
  (forall (lockPid : Pid) (mt : Time),
      Read_mtime (lock_pidfile p) w = (lockPid, mt, None) ->
      match process_query w lockPid with
      | inl ms =>
          Holder fuel p w =
          Some (if ms ÷ 1000 * 10 ^ 9 <? mt then lockPid else 0, None)
      | inr e =>
          if os_IsNotExist e then Holder fuel p w = Some (0, None)
          else exists msg,
              Holder fuel p w =
              Some (0, Some (errors_withMessage (errors_withMessage e msg)
                               "failed to validate lock"))
      end).
Proof.
  split; [apply Holder_not_exist|].
  intros lockPid mt HR. rewrite (Holder_read fuel p w lockPid mt HR).
  pose proof (lockValid_query w lockPid mt) as HV.
  destruct (process_query w lockPid) as [ms|e].
  - rewrite HV. unfold time_Before, time_Unix. rewrite Z.add_0_r.
    destruct (ms ÷ 1000 * 10 ^ 9 <? mt); reflexivity.
  - destruct (os_IsNotExist e).
    + rewrite HV. reflexivity.
    + destruct HV as [msg ->]. exists msg. reflexivity.
Qed.

(** The holder of a pidfile that records process 7, created at 10.9 s, with
    an mtime of 11 s. *)
Lemma Holder_spec_witness :
  Holder 0 the_lock (example_world (example_file "7" (time_Unix 11 0))) =
  Some (7, None).
Proof.
  exact (proj2 (Holder_spec 0 the_lock
                  (example_world (example_file "7" (time_Unix 11 0))))
           7 (time_Unix 11 0) eq_refl).
Defined.

(** C3 (code defect).  The pidfile records process 7 and has an mtime of
    10.5 s; process 7 exists and was created at 10.9 s, which is not before
    the mtime.  [Holder] reports 7 as the holder, where (0, nil) is due:
    [lockValid] compares the second of the creation, 10 s, with the
    mtime. *)
Lemma Holder_reports_process_created_after_mtime :
  let w := example_world (example_file "7" (time_Unix 10 500000000)) in
  Read_mtime the_pidfile w = (7, time_Unix 10 500000000, None) /\
  process_query w 7 = inl 10900 /\
  time_Before (10900 * 10 ^ 6) (time_Unix 10 500000000) = false /\
  Holder 1 the_lock w = Some (7, None).
Proof. vm_compute. auto. Qed.

(** C4.  Whenever [Holder] reports a holder that is not 0, be it the caller
    itself, [Lock] returns [os.ErrExist] and the world, the pidfile with it,
    is the one before the call. *)
Theorem Lock_held (fuel : nat) (p : pidfileLock) (pid : Pid) (w : World)
        (holder : Pid) :
  Holder fuel p w = Some (holder, None) -> holder <> 0 ->
  Lock fuel p pid w = Some (Some os_ErrExist, w).
Proof.
  intros HH Hne. unfold Lock. rewrite HH.
  destruct (Z.eqb_spec holder 0); [contradiction|]. reflexivity.
Qed.

(** Process 42 holds the lock and calls [Lock(0)] again. *)
Lemma Lock_held_witness :
  let w := example_world (example_file "42" (time_Unix 1000 0)) in
  Lock 0 the_lock 0 w = Some (Some os_ErrExist, w).
Proof.
  apply (Lock_held 0 the_lock 0 _ 42); [reflexivity | discriminate].
Defined.

(** [Lock] when nobody holds the lock and the write goes through: the
    pidfile then holds the pid of the caller. *)
Lemma Lock_no_holder (fuel : nat) (p : pidfileLock) (pid : Pid) (w : World) :
  Holder fuel p w = Some (0, None) ->
  no_write_fault w (path (lock_pidfile p)) ->
  Lock fuel p pid w = Some (None, written (lock_pidfile p) w) /\
  files (written (lock_pidfile p) w) !! path (lock_pidfile p) =
    Some {| content := fmt_d (os_Getpid w); mtime := clock w |}.
Proof.
  intros HH Hw. unfold Lock. rewrite HH. cbn [Z.eqb negb].
  rewrite Write_no_fault by exact Hw. split; [reflexivity|].
  unfold written. cbn [set_files files]. apply lookup_insert_eq.
Qed.

(** A [Lock] that returns an error leaves the regular files as they were:
    the world is the one before the call, with the directories of
    [os.MkdirAll] when the write was reached. *)
Lemma Lock_error_files (fuel : nat) (p : pidfileLock) (pid : Pid)
      (w w' : World) (e : error) :
  Lock fuel p pid w = Some (Some e, w') ->
  w' = w \/ w' = made_dirs (lock_pidfile p) w.
Proof.
  unfold Lock. destruct (Holder fuel p w) as [[h [err|]]|]; simpl;
    [intros [= _ <-]; auto| |discriminate].
  destruct (negb (h =? 0)); [intros [= _ <-]; auto|].
  destruct (Write (lock_pidfile p) _ w) as [[err|] w1] eqn:HW; [|discriminate].
  intros [= _ <-]. right. eapply Write_error_made_dirs. exact HW.
Qed.

(** C2 (code defect).  There is no pidfile, [Holder] reports no holder, and
    process 42 calls [Lock(7)]: the call succeeds and the pidfile holds
    "42", the pid of the caller, where the record should hold 7.  This is
    the defect of [Write] seen in C1. *)
Theorem Lock_7_writes_caller_pid :
  let w := example_world ∅ in
  os_Getpid w = 42 /\
  Holder 1 the_lock w = Some (0, None) /\
  Lock 1 the_lock 7 w = Some (None, written the_pidfile w) /\
  content <$> files (written the_pidfile w) !! pidpath =
    Some (list_byte_of_string "42") /\
  Read the_pidfile (written the_pidfile w) = (42, None).
Proof.
  cbv zeta.
  assert (no_write_fault (example_world ∅) (path (lock_pidfile the_lock))) as Hw
    by (repeat split).
  assert (Holder 1 the_lock (example_world ∅) = Some (0, None)) as HH
    by (apply Holder_absent; reflexivity).
  destruct (Lock_no_holder 1 the_lock 7 _ HH Hw) as [HL HF].
  split; [reflexivity|]. split; [exact HH|]. split; [exact HL|].
  split; [vm_compute; reflexivity|]. vm_compute. reflexivity.
Qed.

(** [Unlock] decided by [lockValid] when the record was read. *)
Lemma Unlock_read (fuel : nat) (p : pidfileLock) (pid : Pid) (w : World)
      (lockPid : Pid) (mt : Time) :
  Read_mtime (lock_pidfile p) w = (lockPid, mt, None) ->
  Unlock fuel p pid w =
  let pid := if pid =? 0 then Pid_of_int (os_Getpid w) else pid in
  match lockValid w lockPid mt with
  | (_, Some err) => Some (errors_Wrap (Some err) "failed to validate lock", w)
  | (false, None) => Some (Some os_ErrNotExist, w)
  | (true, None) =>
      if negb (lockPid =? pid) then
        Some (Some (fmt_Errorf
                      ("pidfile is held by " +:+ Sprint_d lockPid +:+
                       "; lock cannot be released by " +:+ Sprint_d pid)), w)
      else
        match os_Remove w (path (lock_pidfile p)) with
        | (Some err, w') => Some (errors_Wrap (Some err) "failed to remove pidfile", w')
        | (None, w') => Some (None, w')
        end
  end.
Proof. intros H. unfold Unlock. rewrite H. reflexivity. Qed.

(** [Unlock] when the read fails with a not-exist error. *)
Lemma Unlock_not_exist (fuel : nat) (p : pidfileLock) (pid : Pid) (w : World)
      (e : error) :
  ioutil_ReadFile w (path (lock_pidfile p)) = inr e ->
  os_IsNotExist (errors_Cause e) = true ->
  Unlock (S fuel) p pid w = Some (Some os_ErrNotExist, w).
Proof.
  intros H Hc. unfold Unlock. rewrite (Read_mtime_ReadFile_error _ _ _ H).
  rewrite isWrappedNotExist_cause; [reflexivity | exact Hc].
Qed.





(** C6.  When the lock is valid and the recorded pid differs from the pid
    asked for (the caller's own for 0), [Unlock] fails with an error whose
    text names the recorded pid and the requested pid, and the world is
    unchanged: the pidfile is still there. *)
Theorem Unlock_not_owner (fuel : nat) (p : pidfileLock) (pid : Pid)
        (w : World) (lockPid : Pid) (mt : Time) :
  Read_mtime (lock_pidfile p) w = (lockPid, mt, None) ->
  lockValid w lockPid mt = (true, None) ->
  lockPid <> (if pid =? 0 then Pid_of_int (os_Getpid w) else pid) ->
  Unlock fuel p pid w =
    Some (Some (fmt_Errorf
                  ("pidfile is held by " +:+ Sprint_d lockPid +:+
                   "; lock cannot be released by " +:+
                   Sprint_d (if pid =? 0 then Pid_of_int (os_Getpid w) else pid))),
          w) /\
  is_Some (files w !! path (lock_pidfile p)).
Proof.
  intros HR HV Hne. rewrite (Unlock_read _ _ _ _ _ _ HR), HV. cbv zeta.
  apply Z.eqb_neq in Hne. rewrite Hne. cbn [negb].
  split; [reflexivity|].
  destruct (Read_mtime_present _ _ _ _ HR) as (f & Hf & _). eauto.
Qed.

(** Process 7 holds the lock; process 42 calls [Unlock(0)]. *)
Lemma Unlock_not_owner_witness :
  let w := example_world (example_file "7" (time_Unix 11 0)) in
  Unlock 0 the_lock 0 w =
    Some (Some (fmt_Errorf "pidfile is held by 7; lock cannot be released by 42"), w) /\
  is_Some (files w !! pidpath).
Proof.
  assert (7 <> (if 0 =? 0 then Pid_of_int 42 else 0)) as Hne
    by (vm_compute; discriminate).
  exact (Unlock_not_owner 0 the_lock 0
           (example_world (example_file "7" (time_Unix 11 0)))
           7 (time_Unix 11 0) eq_refl eq_refl Hne).
Defined.

(** C7.  When the lock is valid and the recorded pid is the pid asked for
    (the caller's own for 0): if the pidfile can be removed, [Unlock]
    succeeds, the pidfile is gone and [Holder] reports no holder; if the
    removal fails with [e], [Unlock] returns an error that wraps [e], the
    world is unchanged and [Holder] still reports the recorded pid. *)
Theorem Unlock_owner (fuel : nat) (p : pidfileLock) (pid : Pid)
        (w : World) (lockPid : Pid) (mt : Time) :
  Read_mtime (lock_pidfile p) w = (lockPid, mt, None) ->
  lockValid w lockPid mt = (true, None) ->
  lockPid = (if pid =? 0 then Pid_of_int (os_Getpid w) else pid) ->
  match fault_Remove w (path (lock_pidfile p)) with
  | None =>
      exists w',
        Unlock fuel p pid w = Some (None, w') /\
        files w' !! path (lock_pidfile p) = None /\
        Holder (S fuel) p w' = Some (0, None)
  | Some e =>
      Unlock fuel p pid w =
        Some (Some (errors_withMessage e "failed to remove pidfile"), w) /\
      is_Some (files w !! path (lock_pidfile p)) /\
      Holder fuel p w = Some (lockPid, None)
  end.
Proof.
  intros HR HV Heq. rewrite (Unlock_read _ _ _ _ _ _ HR), HV. cbv zeta.
  rewrite <- Heq, Z.eqb_refl. cbn [negb].
  destruct (Read_mtime_present _ _ _ _ HR) as (f & Hf & _).
  unfold os_Remove. destruct (fault_Remove w (path (lock_pidfile p))) as [e|].
  - split; [reflexivity|]. split; [eauto|].
    rewrite (Holder_read _ _ _ _ _ HR), HV. reflexivity.
  - rewrite Hf. eexists. split; [reflexivity|].
    assert (files (set_files w (delete (path (lock_pidfile p)) (files w)))
              !! path (lock_pidfile p) = None) as Hgone
      by (cbn [set_files files]; apply lookup_delete_eq).
    split; [exact Hgone|]. apply Holder_absent; [exact Hgone|].
    exact (Read_mtime_no_fault _ _ _ _ HR).
Qed.

(** Process 42 holds the lock and calls [Unlock(42)]. *)
Lemma Unlock_owner_witness :
  let w := example_world (example_file "42" (time_Unix 1000 0)) in
  exists w',
    Unlock 0 the_lock 42 w = Some (None, w') /\
    files w' !! pidpath = None /\
    Holder 1 the_lock w' = Some (0, None).
Proof.
  exact (Unlock_owner 0 the_lock 42
           (example_world (example_file "42" (time_Unix 1000 0)))
           42 (time_Unix 1000 0) eq_refl eq_refl eq_refl).
Defined.

(** ** [Read] *)

Lemma is_decimal_nil : is_decimal [] = false.
Proof. reflexivity. Qed.

(** C8, as the code has it.  [Read] fails with a not-found error when the
    file does not exist and opening it reports that; a failure of
    [ioutil.ReadFile] of any kind comes back wrapped, with the pid 0.  When
    the file is read, with [s] its content
    without the surrounding white space: [Read] fails with a malformed-
    content error if [s] is empty or is not a signed decimal integer, and
    also if it is one outside the range of [int]; otherwise it returns the
    integer converted to the 32 bits of a [Pid], which is the integer itself
    when it fits 32 bits. *)
Theorem Read_spec (p : pidfile) (w : World) :
  (files w !! path p = None -> fault_ReadFile w (path p) = None ->
   exists e, Read p w = (0, Some e) /\ is_NotFound e = true) /\
  (forall e0 : error,
      ioutil_ReadFile w (path p) = inr e0 ->
      Read p w =
        (0, Some (errors_withMessage e0
                    ("failed to read pidfile: " +:+ path p))) /\
      is_NotFound (errors_withMessage e0
                     ("failed to read pidfile: " +:+ path p)) =
        os_IsNotExist (errors_Cause e0)) /\
  (forall d : list byte,
      ioutil_ReadFile w (path p) = inl d ->
      let s := bytes_TrimSpace d in
      (s = [] -> is_decimal s = false) /\
      if is_decimal s then
        if (minInt <=? decimal_value s) && (decimal_value s <=? maxInt) then
          Read p w = (Pid_of_int (decimal_value s), None) /\
          (minInt32 <= decimal_value s <= maxInt32 ->
           Read p w = (decimal_value s, None))
        else exists e, Read p w = (0, Some e) /\ is_Malformed e = true
      else exists e, Read p w = (0, Some e) /\ is_Malformed e = true).
Proof.
  split; [|split].
  - intros H Hf. rewrite Read_absent by assumption. eexists. split; reflexivity.
  - intros e0 H0. rewrite (Read_ReadFile_error p w e0 H0). split; reflexivity.
  - intros d Hd s. split; [intros ->; apply is_decimal_nil|].
    destruct (is_decimal s) eqn:Hdec.
    + destruct ((minInt <=? decimal_value s) && (decimal_value s <=? maxInt))
        eqn:Hr.
      * apply andb_prop in Hr as [H1 H2]. apply Z.leb_le in H1, H2.
        assert (Read p w = (Pid_of_int (decimal_value s), None)) as HR
          by (apply Read_decimal; auto).
        split; [exact HR|]. intros H32. rewrite HR, Pid_of_int_small; auto.
      * unfold Read. rewrite Hd. fold s.
        rewrite strconv_Atoi_decimal, Hr by exact Hdec.
        eexists. split; reflexivity.
    + unfold Read. rewrite Hd. fold s.
      destruct (strconv_Atoi_not_decimal s Hdec) as [k ->].
      eexists. split; reflexivity.
Qed.

(** A pidfile with the text " 42 ". *)
Lemma Read_spec_witness :
  Read the_pidfile (example_world (example_file " 42 " (time_Unix 1000 0))) = (42, None).
Proof.
  pose proof (proj2 (proj2 (Read_spec the_pidfile
                       (example_world (example_file " 42 " (time_Unix 1000 0)))))
                _ eq_refl) as H.
  cbv zeta in H. destruct H as [_ H].
  exact (proj2 H ltac:(vm_compute; split; discriminate)).
Defined.

(** [Read] where the parent of the pidfile is a regular file: the file does
    not exist and the error is not in the not-found class. *)
Lemma Read_absent_under_regular_file :
  files example_world_notdir !! pidpath = None /\
  exists e, Read the_pidfile example_world_notdir = (0, Some e) /\
            is_NotFound e = false.
Proof. split; [reflexivity|]. eexists. split; reflexivity. Qed.

(** C8 as stated fails: the content "4294967297" is a signed decimal
    integer, and [Read] returns 1. *)
Lemma Read_4294967297_returns_1 :
  let w := example_world (example_file "4294967297" (time_Unix 1000 0)) in
  ioutil_ReadFile w pidpath = inl (list_byte_of_string "4294967297") /\
  strconv_Atoi (bytes_TrimSpace (list_byte_of_string "4294967297")) =
    inl 4294967297 /\
  Read the_pidfile w = (1, None).
Proof. vm_compute. auto. Qed.

(** C9.  [Read] makes no check against the range of 32 bits: every content
    that is a decimal integer in the range of [int] is returned cut to its
    low 32 bits, read as signed, without an error; "4294967297" comes back
    as 1 and "2147483648" as -2147483648; negative decimal content in the
    range of 32 bits comes back as the same negative pid. *)
Theorem Read_no_int32_range_check :
  (forall (p : pidfile) (w : World) (d : list byte),
      ioutil_ReadFile w (path p) = inl d ->
      is_decimal (bytes_TrimSpace d) = true ->
      minInt <= decimal_value (bytes_TrimSpace d) <= maxInt ->
      Read p w = (Pid_of_int (decimal_value (bytes_TrimSpace d)), None) /\
      (Pid_of_int (decimal_value (bytes_TrimSpace d))
       - decimal_value (bytes_TrimSpace d)) mod 2 ^ 32 = 0 /\
      minInt32 <= Pid_of_int (decimal_value (bytes_TrimSpace d)) <= maxInt32) /\
  (decimal_value (list_byte_of_string "4294967297") = 4294967297 /\
   maxInt32 < 4294967297 /\
   Read the_pidfile
     (example_world (example_file "4294967297" (time_Unix 1000 0))) = (1, None)) /\
  (decimal_value (list_byte_of_string "2147483648") = 2147483648 /\
   maxInt32 < 2147483648 /\
   Read the_pidfile
     (example_world (example_file "2147483648" (time_Unix 1000 0))) =
     (-2147483648, None)) /\
  (forall (p : pidfile) (w : World) (d : list byte),
      ioutil_ReadFile w (path p) = inl d ->
      is_decimal (bytes_TrimSpace d) = true ->
      minInt32 <= decimal_value (bytes_TrimSpace d) < 0 ->
      Read p w = (decimal_value (bytes_TrimSpace d), None)).
Proof.
  split; [|split; [|split]].
  - intros p w d Hd Hdec Hr. split; [apply Read_decimal; auto|].
    split; [apply Pid_of_int_congruent | apply Pid_of_int_range].
  - vm_compute. auto.
  - vm_compute. auto.
  - intros p w d Hd Hdec Hr.
    rewrite (Read_decimal p w d Hd Hdec).
    + rewrite Pid_of_int_small; [reflexivity|].
      unfold minInt32, maxInt32 in *. lia.
    + unfold minInt32, minInt, maxInt, intSize in *.
      change (2 ^ (64 - 1)) with 9223372036854775808. lia.
Qed.

(** A pidfile with the text "-5". *)
Lemma Read_no_int32_range_check_witness :
  Read the_pidfile (example_world (example_file "-5" (time_Unix 1000 0))) =
  (-5, None).
Proof.
  exact (proj2 (proj2 (proj2 Read_no_int32_range_check))
           the_pidfile (example_world (example_file "-5" (time_Unix 1000 0)))
           (list_byte_of_string "-5") eq_refl eq_refl
           ltac:(vm_compute; split; [discriminate | reflexivity])).
Defined.

(** C10, as the code has it.  [lockValid] cuts the creation time of the
    process to whole seconds ([ms ÷ 1000], the remainder dropped) and tests
    that second against the mtime.  So for a process created within the
    second of the mtime, before the mtime or after it, the lock is valid
    exactly when the mtime is not on the boundary of that second; a process
    created in that second after the mtime is judged valid when the mtime
    has a part below the second. *)
Theorem lockValid_whole_seconds (w : World) (pid : Pid) (mt : Time) (ms : Z) :
  process_query w pid = inl ms ->
  lockValid w pid mt = (ms ÷ 1000 * 10 ^ 9 <? mt, None) /\
  (0 <= ms -> ms / 1000 = mt / 10 ^ 9 ->
   lockValid w pid mt = (negb (mt mod 10 ^ 9 =? 0), None)) /\
  (0 <= ms -> ms / 1000 = mt / 10 ^ 9 -> mt < ms * 10 ^ 6 ->
   mt mod 10 ^ 9 <> 0 -> lockValid w pid mt = (true, None)).
Proof.
  intros HQ. pose proof (lockValid_query w pid mt) as HV. rewrite HQ in HV.
  unfold time_Before, time_Unix in HV. rewrite Z.add_0_r in HV.
  assert (0 <= ms -> ms / 1000 = mt / 10 ^ 9 ->
          (ms ÷ 1000 * 10 ^ 9 <? mt) = negb (mt mod 10 ^ 9 =? 0)) as Hsame.
  { intros Hms Hs. rewrite Z.quot_div_nonneg, Hs by lia.
    pose proof (Z.div_mod mt (10 ^ 9) ltac:(lia)) as Hdm.
    pose proof (Z.mod_pos_bound mt (10 ^ 9) ltac:(lia)) as Hb.
    destruct (Z.eqb_spec (mt mod 10 ^ 9) 0); cbn [negb];
      [apply Z.ltb_ge | apply Z.ltb_lt]; lia. }
  split; [exact HV|]. split.
  - intros Hms Hs. rewrite HV, Hsame; auto.
  - intros Hms Hs _ Hfrac. rewrite HV, Hsame by auto.
    apply Z.eqb_neq in Hfrac. rewrite Hfrac. reflexivity.
Qed.

(** Process 7 was created at 10.9 s; the mtime is 10.5 s. *)
Lemma lockValid_whole_seconds_witness :
  lockValid (example_world ∅) 7 (time_Unix 10 500000000) = (true, None).
Proof.
  exact (proj2 (proj2 (lockValid_whole_seconds (example_world ∅) 7
                         (time_Unix 10 500000000) 10900 eq_refl))
           ltac:(discriminate) eq_refl eq_refl ltac:(discriminate)).
Defined.

(** C10 as stated fails: process 7 was created at 10.9 s, in the second of
    an mtime of exactly 10 s and after it, and the lock is judged invalid. *)
Lemma lockValid_mtime_on_boundary :
  let w := example_world ∅ in
  let mt := time_Unix 10 0 in
  process_query w 7 = inl 10900 /\
  10900 / 1000 = mt / 10 ^ 9 /\
  mt < 10900 * 10 ^ 6 /\
  lockValid w 7 mt = (false, None).
Proof. vm_compute. auto. Qed.

(** * Further properties of the code *)

(** ** [isWrappedNotExist] *)

(** X1.  With fuel for one assignment or more, [isWrappedNotExist] returns
    [false] on nil, [true] on an error that is a not-exist error or whose
    cause is one, and does not return on any other error: it never answers
    [false] for an error that is not nil. *)
Theorem isWrappedNotExist_outcome (fuel : nat) (err : option error) :
  isWrappedNotExist (S fuel) err =
  match err with
  | None => Some false
  | Some e =>
      if os_IsNotExist e || os_IsNotExist (errors_Cause e) then Some true
      else None
  end.
Proof.
  destruct err as [e|]; [|reflexivity].
  destruct (os_IsNotExist e) eqn:He.
  - simpl. rewrite He. reflexivity.
  - destruct (os_IsNotExist (errors_Cause e)) eqn:Hc; cbn [orb].
    + apply isWrappedNotExist_cause. exact Hc.
    + apply isWrappedNotExist_diverges; assumption.
Qed.

(** ** [Read] and [Write] *)

(** An error of [Read] is a wrapper, and comes with the pid 0. *)
Lemma Read_error_wrapped (p : pidfile) (w : World) (pid : Pid) (e : error) :
  Read p w = (pid, Some e) ->
  pid = 0 /\ exists c msg, e = errors_withMessage c msg.
Proof.
  unfold Read. destruct (ioutil_ReadFile w (path p)) as [d|e0].
  - destruct (strconv_Atoi (bytes_TrimSpace d)) as [n|e1]; [discriminate|].
    simpl. intros [= <- <-]. eauto.
  - simpl. intros [= <- <-]. eauto.
Qed.

(** X2.  Whenever [Read] returns an error, the pid is 0 and
    [os.IsNotExist] is false on the error, also when the file is missing
    and opening it reports ENOENT: the not-exist error is then the cause of
    what [Read] returns, under the wrapper of [errors.Wrapf]. *)
Theorem Read_error_hides_not_exist (p : pidfile) (w : World) (pid : Pid)
        (e : error) :
  Read p w = (pid, Some e) ->
  pid = 0 /\ os_IsNotExist e = false /\
  (files w !! path p = None -> fault_ReadFile w (path p) = None ->
   os_IsNotExist (errors_Cause e) = true).
Proof.
  intros H. destruct (Read_error_wrapped p w pid e H) as (-> & c & msg & ->).
  split; [reflexivity|]. split; [reflexivity|].
  intros Habs Hf. rewrite Read_absent in H by assumption.
  injection H as <- _. reflexivity.
Qed.

(** [Read] of a missing pidfile. *)
Lemma Read_error_hides_not_exist_witness :
  0 = 0 /\
  os_IsNotExist (errors_withMessage (enoent "open" pidpath)
                   ("failed to read pidfile: " +:+ pidpath)) = false /\
  (files (example_world ∅) !! path the_pidfile = None ->
   fault_ReadFile (example_world ∅) (path the_pidfile) = None ->
   os_IsNotExist
     (errors_Cause (errors_withMessage (enoent "open" pidpath)
                      ("failed to read pidfile: " +:+ pidpath))) = true).
Proof.
  exact (Read_error_hides_not_exist the_pidfile (example_world ∅) 0 _ eq_refl).
Defined.

(** What a [Write] that succeeded did. *)
Lemma Write_success_inv (p : pidfile) (pid : Pid) (w w' : World) :
  Write p pid w = (None, w') ->
  no_write_fault w (path p) /\ w' = written p w.
Proof.
  unfold Write, os_MkdirAll, no_write_fault, atomicfile_New,
    atomicfile_Fprintf, atomicfile_Close.
  cbn [set_dirs fault_New fault_Fprintf fault_Close af_path af_buf os_Getpid
       clock files app].
  destruct (fault_MkdirAll w (path p)); [discriminate|].
  destruct (fault_New w (path p)); [discriminate|]. cbn [af_path af_buf app].
  destruct (fault_Fprintf w (path p)); [discriminate|]. cbn [af_path af_buf].
  destruct (fault_Close w (path p)); [discriminate|].
  intros [= <-]. auto.
Qed.

(** X4.  [Write] touches no other file: whatever it returns, every path
    other than the pidfile's holds afterwards what it held before, and the
    caller's pid and the process table are the same. *)
Theorem Write_other_paths (p : pidfile) (pid : Pid) (w : World) (q : string) :
  q <> path p ->
  files (snd (Write p pid w)) !! q = files w !! q /\
  os_Getpid (snd (Write p pid w)) = os_Getpid w /\
  proc_NewProcess (snd (Write p pid w)) = proc_NewProcess w /\
  proc_CreateTime (snd (Write p pid w)) = proc_CreateTime w.
Proof.
  intros Hq. destruct (Write p pid w) as [[e|] w'] eqn:HW.
  - apply Write_error_made_dirs in HW. subst w'. auto.
  - apply Write_success_inv in HW as [_ ->]. cbn [snd].
    unfold written, made_dirs.
    cbn [set_files set_dirs files os_Getpid proc_NewProcess proc_CreateTime].
    rewrite lookup_insert_ne by congruence. auto.
Qed.

(** A write beside another file. *)
Lemma Write_other_paths_witness :
  let w := example_world {[ "/run/other.pid"%string :=
                              {| content := [x31]; mtime := 5 |} ]} in
  files (snd (Write the_pidfile 0 w)) !! "/run/other.pid"%string =
    files w !! "/run/other.pid"%string /\
  os_Getpid (snd (Write the_pidfile 0 w)) = os_Getpid w /\
  proc_NewProcess (snd (Write the_pidfile 0 w)) = proc_NewProcess w /\
  proc_CreateTime (snd (Write the_pidfile 0 w)) = proc_CreateTime w.
Proof.
  apply (Write_other_paths the_pidfile 0 _ "/run/other.pid"%string).
  discriminate.
Defined.

(** [Read] of the pidfile that [Write] leaves. *)
Lemma Read_written (p : pidfile) (w : World) :
  fault_ReadFile w (path p) = None ->
  minInt <= os_Getpid w <= maxInt ->
  Read p (written p w) = (Pid_of_int (os_Getpid w), None).
Proof.
  intros Hr Hpid.
  unfold Read, ioutil_ReadFile, written, made_dirs.
  cbn [set_files set_dirs files fault_ReadFile].
  rewrite Hr, lookup_insert_eq. cbn [content].
  rewrite bytes_TrimSpace_fmt_d, strconv_Atoi_fmt_d by exact Hpid.
  reflexivity.
Qed.

Lemma int32_in_int (n : Z) : minInt32 <= n <= maxInt32 -> minInt <= n <= maxInt.
Proof.
  unfold minInt32, maxInt32, minInt, maxInt, intSize.
  change (2 ^ (64 - 1)) with 9223372036854775808. lia.
Qed.

(** X5.  After a [Write] that returned nil, with any pid argument, [Read]
    returns the pid of the process that wrote, provided the file can be
    read and the pid fits the 32 bits of a [Pid]. *)
Theorem Read_after_Write (p : pidfile) (pid : Pid) (w w' : World) :
  Write p pid w = (None, w') ->
  fault_ReadFile w (path p) = None ->
  minInt32 <= os_Getpid w <= maxInt32 ->
  Read p w' = (os_Getpid w, None).
Proof.
  intros HW Hr Hpid. apply Write_success_inv in HW as [_ ->].
  rewrite Read_written, Pid_of_int_small; auto using int32_in_int.
Qed.

(** Process 42 writes with the argument 0 and reads. *)
Lemma Read_after_Write_witness :
  Read the_pidfile (written the_pidfile (example_world ∅)) = (42, None).
Proof.
  refine (Read_after_Write the_pidfile 0 (example_world ∅) _ eq_refl eq_refl _).
  vm_compute. split; discriminate.
Defined.

(** White space of the table [asciiSpace] in front of a numeral is trimmed
    away when there is fuel for it. *)
Lemma trim_front_ascii (encs : list (list byte)) (l : list byte) :
  forallb asciiSpace l = true ->
  forall (n : nat) (c : byte) (s : list byte),
    (length l <= n)%nat -> space_width encs (c :: s) = O ->
    trim_front encs n (l ++ c :: s) = c :: s.
Proof.
  intros Hl. induction l as [|a l IH]; intros n c s Hn Hc.
  - destruct n; cbn [app trim_front]; [reflexivity|]. rewrite Hc. reflexivity.
  - cbn [forallb] in Hl. apply andb_prop in Hl as [Ha Hl].
    destruct n as [|n]; [cbn [length] in Hn; lia|].
    cbn [app trim_front space_width]. rewrite Ha. cbn [drop].
    apply IH; [exact Hl | cbn [length] in Hn; lia | exact Hc].
Qed.

Lemma forallb_rev {A : Type} (f : A -> bool) (l : list A) :
  forallb f (rev l) = forallb f l.
Proof.
  induction l as [|a l IH]; [reflexivity|].
  cbn [rev forallb]. rewrite forallb_app, IH. cbn [forallb].
  rewrite andb_true_r. apply andb_comm.
Qed.

(** [bytes.TrimSpace] removes ASCII white space around a text that starts
    and ends with a numeral. *)
Lemma bytes_TrimSpace_padded (l r : list byte) (c d : byte) (s t : list byte) :
  forallb asciiSpace l = true -> forallb asciiSpace r = true ->
  is_numeral c = true -> is_numeral d = true -> c :: s = t ++ [d] ->
  bytes_TrimSpace (l ++ (c :: s) ++ r) = c :: s.
Proof.
  intros Hl Hr Hc Hd E. unfold bytes_TrimSpace.
  destruct (space_width_numeral c (s ++ r) Hc) as [Hc1 _].
  destruct (space_width_numeral d (rev t) Hd) as [_ Hd2].
  cbn [app]. rewrite (trim_front_ascii unicodeSpace l Hl _ c (s ++ r));
    [|rewrite length_app; lia|exact Hc1].
  change (c :: s ++ r) with ((c :: s) ++ r).
  rewrite rev_app_distr, E, rev_app_distr. cbn [rev app].
  rewrite trim_front_ascii;
    [|rewrite forallb_rev; exact Hr
     |rewrite length_rev, !length_app; lia|exact Hd2].
  cbn [rev]. rewrite rev_involutive. reflexivity.
Qed.

(** The text of [%d] starts and ends with a numeral. *)
Lemma fmt_d_ends (n : Z) :
  exists c s t d, fmt_d n = c :: s /\ c :: s = t ++ [d] /\
                  is_numeral c = true /\ is_numeral d = true.
Proof.
  unfold fmt_d. destruct (n <? 0) eqn:Hneg.
  - apply Z.ltb_lt in Hneg.
    destruct (forallb_digit_ends (fmt_digits 20 (- n)))
      as (c & s' & t & d & _ & E & _ & Hd).
    { apply fmt_digits_nonempty. } { apply fmt_digits_all_digits. lia. }
    exists x2d, (fmt_digits 20 (- n)), (x2d :: t), d.
    split; [reflexivity|]. split; [rewrite E at 1; reflexivity|].
    split; [reflexivity|]. unfold is_numeral. rewrite Hd. reflexivity.
  - apply Z.ltb_ge in Hneg.
    destruct (forallb_digit_ends (fmt_digits 20 n))
      as (c & s' & t & d & E1 & E & Hc & Hd).
    { apply fmt_digits_nonempty. } { apply fmt_digits_all_digits. lia. }
    exists c, s', t, d. split; [exact E1|]. split; [rewrite <- E1; exact E|].
    unfold is_numeral. rewrite Hc, Hd. auto.
Qed.

(** X6.  [Read] accepts a pid with ASCII white space around it: a pidfile
    whose content is the decimal text of a 32-bit [n] between any runs of
    tabs, newlines, vertical tabs, form feeds, carriage returns and spaces
    is read as [n], without an error. *)
Theorem Read_ignores_padding (p : pidfile) (w : World) (f : File)
        (l r : list byte) (n : Z) :
  files w !! path p = Some f ->
  fault_ReadFile w (path p) = None ->
  content f = l ++ fmt_d n ++ r ->
  forallb asciiSpace l = true -> forallb asciiSpace r = true ->
  minInt32 <= n <= maxInt32 ->
  Read p w = (n, None).
Proof.
  intros Hf Hfault Hc Hl Hr Hn. unfold Read, ioutil_ReadFile.
  rewrite Hfault, Hf, Hc.
  destruct (fmt_d_ends n) as (c & s & t & d & E1 & E2 & Hc1 & Hd1).
  rewrite E1, (bytes_TrimSpace_padded l r c d s t) by assumption.
  rewrite <- E1, strconv_Atoi_fmt_d by (apply int32_in_int; exact Hn).
  rewrite Pid_of_int_small by exact Hn. reflexivity.
Qed.

(** The pidfile that [echo] leaves: " 42", then a newline. *)
Lemma Read_ignores_padding_witness :
  Read the_pidfile
    (example_world (example_bytes [x20; x34; x32; x0a] (time_Unix 1000 0))) =
  (42, None).
Proof.
  refine (Read_ignores_padding the_pidfile
            (example_world (example_bytes [x20; x34; x32; x0a] (time_Unix 1000 0)))
            {| content := [x20; x34; x32; x0a]; mtime := time_Unix 1000 0 |}
            [x20] [x0a] 42 eq_refl eq_refl eq_refl eq_refl eq_refl _).
  vm_compute. split; discriminate.
Defined.

(** ** [lockValid] *)

(** X7.  For a process that exists, with a creation time that is not
    negative, [lockValid] errs on one side only and by less than a second:
    a process created before the mtime is always judged valid, and a
    process judged valid was created less than one second after the
    mtime. *)
Theorem lockValid_within_one_second (w : World) (pid : Pid) (mt : Time)
        (ms : Z) :
  process_query w pid = inl ms -> 0 <= ms ->
  (ms * 10 ^ 6 < mt -> lockValid w pid mt = (true, None)) /\
  (lockValid w pid mt = (true, None) -> ms * 10 ^ 6 < mt + 10 ^ 9).
Proof.
  intros HQ Hms. pose proof (lockValid_query w pid mt) as HV.
  rewrite HQ in HV. unfold time_Before, time_Unix in HV.
  rewrite Z.add_0_r, Z.quot_div_nonneg in HV by lia. rewrite HV.
  pose proof (Z.div_mod ms 1000 ltac:(lia)) as Hdm.
  pose proof (Z.mod_pos_bound ms 1000 ltac:(lia)) as Hb.
  split.
  - intros Hlt. f_equal. apply Z.ltb_lt. lia.
  - intros [= Hlt]. apply Z.ltb_lt in Hlt. lia.
Qed.

(** Process 7 was created at 10.9 s; the mtime is 11 s. *)
Lemma lockValid_within_one_second_witness :
  lockValid (example_world ∅) 7 (time_Unix 11 0) = (true, None).
Proof.
  exact (proj1 (lockValid_within_one_second (example_world ∅) 7
                  (time_Unix 11 0) 10900 eq_refl ltac:(discriminate))
           eq_refl).
Defined.

(** X8.  A later mtime keeps a lock valid: when [lockValid] judges a lock
    valid for an mtime, it judges it valid for every mtime after that
    one. *)
Theorem lockValid_later_mtime (w : World) (pid : Pid) (mt mt' : Time) :
  lockValid w pid mt = (true, None) -> mt <= mt' ->
  lockValid w pid mt' = (true, None).
Proof.
  intros HV Hle.
  pose proof (lockValid_query w pid mt) as H.
  pose proof (lockValid_query w pid mt') as H'.
  destruct (process_query w pid) as [ms|e].
  - rewrite H in HV. rewrite H'. unfold time_Before in *.
    injection HV as HV. apply Z.ltb_lt in HV. f_equal. apply Z.ltb_lt. lia.
  - destruct (os_IsNotExist e).
    + rewrite H in HV. discriminate.
    + destruct H as [msg H]. rewrite H in HV. discriminate.
Qed.

(** Process 7, valid for an mtime of 11 s, is valid for one of 12 s. *)
Lemma lockValid_later_mtime_witness :
  lockValid (example_world ∅) 7 (time_Unix 12 0) = (true, None).
Proof.
  exact (lockValid_later_mtime (example_world ∅) 7 (time_Unix 11 0)
           (time_Unix 12 0) eq_refl ltac:(discriminate)).
Defined.

(** ** The coordinator on a pidfile that cannot be read *)

Lemma Read_mtime_error (p : pidfile) (w : World) (pid : Pid) (e : error) :
  Read p w = (pid, Some e) -> Read_mtime p w = (0, time_zero, Some e).
Proof. intros H. unfold Read_mtime. rewrite H. reflexivity. Qed.

(** X9.  When [Read] fails and the cause is not a not-exist error (the
    content is no integer, the file may not be read), [Holder], [Lock] and
    [Unlock] never return: each of them waits for [isWrappedNotExist], which
    loops on such an error. *)
Theorem coordinator_hangs_on_read_failure (p : pidfileLock) (w : World)
        (pid0 : Pid) (e : error) :
  Read (lock_pidfile p) w = (pid0, Some e) ->
  os_IsNotExist (errors_Cause e) = false ->
  forall (fuel : nat) (pid : Pid),
    Holder fuel p w = None /\ Lock fuel p pid w = None /\
    Unlock fuel p pid w = None.
Proof.
  intros HR Hc fuel pid. apply Read_mtime_error in HR.
  assert (Holder fuel p w = None) as HH
    by (eapply Holder_read_failure_diverges; eauto).
  split; [exact HH|]. split.
  - unfold Lock. rewrite HH. reflexivity.
  - unfold Holder in HH. unfold Unlock. rewrite HR in *.
    destruct (isWrappedNotExist fuel (Some e)) as [[|]|];
      [discriminate|discriminate|reflexivity].
Qed.

(** A pidfile with the text "abc". *)
Lemma coordinator_hangs_on_read_failure_witness :
  let w := example_world (example_file "abc" (time_Unix 900 0)) in
  Holder 1000 the_lock w = None /\ Lock 1000 the_lock 0 w = None /\
  Unlock 1000 the_lock 0 w = None.
Proof.
  exact (coordinator_hangs_on_read_failure the_lock
           (example_world (example_file "abc" (time_Unix 900 0)))
           0 _ eq_refl eq_refl 1000%nat 0).
Defined.

(** ** What [Holder] reports *)

(** X10.  A holder that [Holder] reports is backed by the world: when it
    returns a pid that is not 0, the error is nil, the pidfile exists,
    [Read] returns that pid, the process exists, and the second of its
    creation is strictly before the mtime of the pidfile. *)
Theorem Holder_sound (fuel : nat) (p : pidfileLock) (w : World)
        (h : Pid) (err : option error) :
  Holder fuel p w = Some (h, err) -> h <> 0 ->
  err = None /\
  exists (f : File) (ms : Z),
    files w !! path (lock_pidfile p) = Some f /\
    Read (lock_pidfile p) w = (h, None) /\
    process_query w h = inl ms /\
    ms ÷ 1000 * 10 ^ 9 < mtime f.
Proof.
  intros HH Hne. unfold Holder in HH.
  destruct (Read_mtime (lock_pidfile p) w) as [[lockPid mt] [e|]] eqn:HR.
  - destruct (isWrappedNotExist fuel (Some e)) as [[|]|]; simpl in HH;
      [injection HH as <- _; contradiction
      |injection HH as <- _; contradiction|discriminate].
  - destruct (Read_mtime_present _ _ _ _ HR) as (f & Hf & Hmt & HRd).
    pose proof (lockValid_query w lockPid mt) as HV.
    destruct (lockValid w lockPid mt) as [[|] [e|]] eqn:HL; simpl in HH;
      try (injection HH as <- _; contradiction).
    injection HH as <- <-. split; [reflexivity|].
    destruct (process_query w lockPid) as [ms|e].
    + exists f, ms. injection HV as HV. unfold time_Before, time_Unix in HV.
      symmetry in HV. apply Z.ltb_lt in HV. rewrite Hmt. repeat split; auto. lia.
    + destruct (os_IsNotExist e); [discriminate|].
      destruct HV as [msg HV]. discriminate.
Qed.

(** Process 7 holds the pidfile stamped at 11 s. *)
Lemma Holder_sound_witness :
  @None error = None /\
  exists (f : File) (ms : Z),
    files (example_world (example_file "7" (time_Unix 11 0))) !! pidpath = Some f /\
    Read the_pidfile (example_world (example_file "7" (time_Unix 11 0))) = (7, None) /\
    process_query (example_world (example_file "7" (time_Unix 11 0))) 7 = inl ms /\
    ms ÷ 1000 * 10 ^ 9 < mtime f.
Proof.
  exact (Holder_sound 0 the_lock
           (example_world (example_file "7" (time_Unix 11 0)))
           7 None eq_refl ltac:(discriminate)).
Defined.

(** ** [Lock] and [Unlock] in sequence *)

Lemma Lock_success_inv (fuel : nat) (p : pidfileLock) (pid : Pid)
      (w w' : World) :
  Lock fuel p pid w = Some (None, w') ->
  Holder fuel p w = Some (0, None) /\
  no_write_fault w (path (lock_pidfile p)) /\
  w' = written (lock_pidfile p) w.
Proof.
  unfold Lock. destruct (Holder fuel p w) as [[h [e|]]|]; simpl;
    [discriminate| |discriminate].
  destruct (Z.eqb_spec h 0) as [->|]; simpl; [|discriminate].
  destruct (Write (lock_pidfile p) _ w) as [[e|] w1] eqn:HW; [discriminate|].
  intros [= <-]. apply Write_success_inv in HW as [Hw ->]. auto.
Qed.

(** X11.  [Lock] returns nil exactly when [Holder] reported no holder and
    no step of the write failed, and the world is then the one in which the
    pidfile holds the caller's pid. *)
Theorem Lock_succeeds_iff (fuel : nat) (p : pidfileLock) (pid : Pid)
        (w w' : World) :
  Lock fuel p pid w = Some (None, w') <->
  Holder fuel p w = Some (0, None) /\
  no_write_fault w (path (lock_pidfile p)) /\
  w' = written (lock_pidfile p) w.
Proof.
  split; [apply Lock_success_inv|].
  intros (HH & Hw & ->). apply Lock_no_holder; assumption.
Qed.

(** [Lock(0)] by process 42 where there is no pidfile. *)
Lemma Lock_succeeds_iff_witness :
  Lock 1 the_lock 0 (example_world ∅) =
  Some (None, written the_pidfile (example_world ∅)).
Proof.
  apply (proj2 (Lock_succeeds_iff 1 the_lock 0 (example_world ∅)
                  (written the_pidfile (example_world ∅)))).
  split; [reflexivity|]. split; [repeat split|reflexivity].
Defined.

(** The record of the pidfile that [Write] leaves. *)
Lemma Read_mtime_written (p : pidfile) (w : World) :
  fault_ReadFile w (path p) = None ->
  minInt <= os_Getpid w <= maxInt ->
  Read_mtime p (written p w) = (Pid_of_int (os_Getpid w), clock w, None).
Proof.
  intros Hr Hpid. unfold Read_mtime. rewrite Read_written by assumption.
  unfold written. cbn [set_files files]. rewrite lookup_insert_eq. reflexivity.
Qed.

(** The process table does not depend on the files. *)
Lemma lockValid_set_files (w : World) (fs : gmap string File) (pid : Pid)
      (mt : Time) :
  lockValid (set_files w fs) pid mt = lockValid w pid mt.
Proof. reflexivity. Qed.

(** Nor on the directories. *)
Lemma lockValid_set_dirs (w : World) (ds : gset string) (pid : Pid)
      (mt : Time) :
  lockValid (set_dirs w ds) pid mt = lockValid w pid mt.
Proof. reflexivity. Qed.

(** The validity of the pidfile that the caller has just written. *)
Lemma lockValid_written (p : pidfile) (w : World) (ms : Z) :
  process_query w (os_Getpid w) = inl ms ->
  lockValid (written p w) (os_Getpid w) (clock w) =
  (ms ÷ 1000 * 10 ^ 9 <? clock w, None).
Proof.
  intros HQ. unfold written, made_dirs.
  rewrite lockValid_set_files, lockValid_set_dirs.
  pose proof (lockValid_query w (os_Getpid w) (clock w)) as HV.
  rewrite HQ in HV. rewrite HV. unfold time_Before, time_Unix.
  rewrite Z.add_0_r. reflexivity.
Qed.

(** X12.  After a [Lock] that returned nil, by a process whose pid fits 32
    bits and that the process table knows, [Holder] reports the caller when
    the second of the caller's creation is strictly before the time the
    pidfile was stamped with, and reports no holder otherwise, that is
    when the stamp is not after the start of the second in which the caller
    was created. *)
Theorem Holder_after_Lock (fuel fuel' : nat) (p : pidfileLock) (pid : Pid)
        (w w' : World) (ms : Z) :
  Lock fuel p pid w = Some (None, w') ->
  fault_ReadFile w (path (lock_pidfile p)) = None ->
  minInt32 <= os_Getpid w <= maxInt32 ->
  process_query w (os_Getpid w) = inl ms ->
  Holder fuel' p w' =
  Some (if ms ÷ 1000 * 10 ^ 9 <? clock w then os_Getpid w else 0, None).
Proof.
  intros HL Hr Hpid HQ. apply Lock_success_inv in HL as (_ & _ & ->).
  pose proof (Read_mtime_written (lock_pidfile p) w Hr
                (int32_in_int _ Hpid)) as HR.
  rewrite Pid_of_int_small in HR by exact Hpid.
  rewrite (Holder_read _ _ _ _ _ HR), (lockValid_written _ _ ms HQ).
  destruct (ms ÷ 1000 * 10 ^ 9 <? clock w); reflexivity.
Qed.

(** Process 42, created at 900 s, locks at 1000.25 s. *)
Lemma Holder_after_Lock_witness :
  Holder 0 the_lock (written the_pidfile (example_world ∅)) = Some (42, None).
Proof.
  refine (Holder_after_Lock 1 0 the_lock 0 (example_world ∅) _ 900000
            eq_refl eq_refl _ eq_refl).
  vm_compute. split; discriminate.
Defined.

(** X13.  [Lock] is not re-entrant: after a [Lock] that returned nil, by a
    process with a pid other than 0 that was created in a second strictly
    before the stamp of the pidfile, a second [Lock], with any pid, returns
    [os.ErrExist] and changes nothing. *)
Theorem Lock_twice (fuel fuel' : nat) (p : pidfileLock) (pid pid' : Pid)
        (w w' : World) (ms : Z) :
  Lock fuel p pid w = Some (None, w') ->
  fault_ReadFile w (path (lock_pidfile p)) = None ->
  minInt32 <= os_Getpid w <= maxInt32 -> os_Getpid w <> 0 ->
  process_query w (os_Getpid w) = inl ms ->
  ms ÷ 1000 * 10 ^ 9 < clock w ->
  Lock fuel' p pid' w' = Some (Some os_ErrExist, w').
Proof.
  intros HL Hr Hpid Hne HQ Hlt. apply Lock_success_inv in HL as (_ & _ & ->).
  pose proof (Read_mtime_written (lock_pidfile p) w Hr
                (int32_in_int _ Hpid)) as HR.
  rewrite Pid_of_int_small in HR by exact Hpid.
  unfold Lock.
  rewrite (Holder_read _ _ _ _ _ HR), (lockValid_written _ _ ms HQ).
  apply Z.ltb_lt in Hlt. rewrite Hlt.
  apply Z.eqb_neq in Hne. rewrite Hne. reflexivity.
Qed.

(** Process 42 calls [Lock(0)] twice. *)
Lemma Lock_twice_witness :
  Lock 0 the_lock 0 (written the_pidfile (example_world ∅)) =
  Some (Some os_ErrExist, written the_pidfile (example_world ∅)).
Proof.
  refine (Lock_twice 1 0 the_lock 0 0 (example_world ∅) _ 900000
            eq_refl eq_refl _ _ eq_refl eq_refl).
  - vm_compute. split; discriminate.
  - discriminate.
Defined.

(** X14.  After a [Lock] that returned nil and holds (caller created in a
    second strictly before the stamp), [Unlock] releases the lock exactly
    for the caller's pid, given as 0 or as itself: it then returns nil and
    removes the pidfile, and where there was no pidfile before the [Lock]
    the world is the one before the [Lock] but for the directories that
    [os.MkdirAll] created, which stay.  For any other pid it fails
    with the error that names the caller and that pid, and this is also
    the outcome of [Unlock(pid)] after [Lock(pid)] for a pid that is not
    the caller's. *)
Theorem Unlock_after_Lock (fuel fuel' : nat) (p : pidfileLock) (pid pid' : Pid)
        (w w' : World) (ms : Z) :
  Lock fuel p pid w = Some (None, w') ->
  fault_ReadFile w (path (lock_pidfile p)) = None ->
  fault_Remove w (path (lock_pidfile p)) = None ->
  minInt32 <= os_Getpid w <= maxInt32 ->
  process_query w (os_Getpid w) = inl ms ->
  ms ÷ 1000 * 10 ^ 9 < clock w ->
  Unlock fuel' p pid' w' =
    (if resolve_pid w pid' =? os_Getpid w
     then Some (None, removed (lock_pidfile p) w')
     else Some (Some (not_owner_error (os_Getpid w) (resolve_pid w pid')), w')) /\
  (files w !! path (lock_pidfile p) = None ->
   removed (lock_pidfile p) w' = made_dirs (lock_pidfile p) w).
Proof.
  intros HL Hr Hrm Hpid HQ Hlt. apply Lock_success_inv in HL as (_ & _ & ->).
  pose proof (Read_mtime_written (lock_pidfile p) w Hr
                (int32_in_int _ Hpid)) as HR.
  rewrite Pid_of_int_small in HR by exact Hpid.
  split.
  - rewrite (Unlock_read _ _ _ _ _ _ HR), (lockValid_written _ _ ms HQ).
    apply Z.ltb_lt in Hlt. rewrite Hlt. cbv zeta.
    change (if pid' =? 0
            then Pid_of_int (os_Getpid (written (lock_pidfile p) w))
            else pid') with (resolve_pid w pid').
    rewrite (Z.eqb_sym (os_Getpid w)).
    destruct (resolve_pid w pid' =? os_Getpid w); cbn [negb]; [|reflexivity].
    unfold os_Remove, written, made_dirs.
    cbn [set_files set_dirs files fault_Remove].
    rewrite Hrm, lookup_insert_eq. reflexivity.
  - intros Habs. unfold removed, written, made_dirs.
    cbn [set_files set_dirs files].
    rewrite delete_insert_id by exact Habs. reflexivity.
Qed.

(** Process 42 calls [Lock(0)], then [Unlock(0)], where there was no
    pidfile. *)
Lemma Unlock_after_Lock_witness :
  Unlock 0 the_lock 0 (written the_pidfile (example_world ∅)) =
    Some (None, removed the_pidfile (written the_pidfile (example_world ∅))) /\
  (files (example_world ∅) !! pidpath = None ->
   removed the_pidfile (written the_pidfile (example_world ∅)) =
   made_dirs the_pidfile (example_world ∅)).
Proof.
  refine (Unlock_after_Lock 1 0 the_lock 0 0 (example_world ∅) _ 900000
            eq_refl eq_refl eq_refl _ eq_refl eq_refl).
  vm_compute. split; discriminate.
Defined.

(** X15.  [Lock] takes over a stale pidfile: when the record is read and
    [lockValid] finds it invalid, [Lock] overwrites the pidfile with the
    caller's pid and returns nil, provided no step of the write fails. *)
Theorem Lock_over_stale (fuel : nat) (p : pidfileLock) (pid : Pid) (w : World)
        (lockPid : Pid) (mt : Time) :
  Read_mtime (lock_pidfile p) w = (lockPid, mt, None) ->
  lockValid w lockPid mt = (false, None) ->
  no_write_fault w (path (lock_pidfile p)) ->
  Lock fuel p pid w = Some (None, written (lock_pidfile p) w) /\
  content <$> files (written (lock_pidfile p) w) !! path (lock_pidfile p) =
    Some (fmt_d (os_Getpid w)).
Proof.
  intros HR HV Hw.
  assert (Holder fuel p w = Some (0, None)) as HH
    by (rewrite (Holder_read _ _ _ _ _ HR), HV; reflexivity).
  destruct (Lock_no_holder fuel p pid w HH Hw) as [HL HF].
  split; [exact HL|]. rewrite HF. reflexivity.
Qed.

(** A pidfile of process 5, which does not exist; process 42 locks. *)
Lemma Lock_over_stale_witness :
  let w := example_world (example_file "5" (time_Unix 900 0)) in
  Lock 0 the_lock 0 w = Some (None, written the_pidfile w) /\
  content <$> files (written the_pidfile w) !! pidpath = Some (fmt_d 42).
Proof.
  refine (Lock_over_stale 0 the_lock 0
            (example_world (example_file "5" (time_Unix 900 0)))
            5 (time_Unix 900 0) eq_refl eq_refl _).
  repeat split.
Defined.

(** X16.  A [Lock] that returns an error leaves every regular file as it
    was, and the error tells the stage: it is [os.ErrExist] exactly when
    [Holder] reported a holder other than 0, or the error of [Holder]
    wrapped with "failed to examine existing lock", and in both cases the
    world is the one before the call; or, with no holder, it is the error
    of [Write] wrapped with "failed to write pidfile", and the world is the
    one before the call with the directories that [os.MkdirAll] created. *)
Theorem Lock_failure (fuel : nat) (p : pidfileLock) (pid : Pid)
        (w w' : World) (e : error) :
  Lock fuel p pid w = Some (Some e, w') ->
  files w' = files w /\
  ((e = os_ErrExist /\ w' = w /\
    exists h, h <> 0 /\ Holder fuel p w = Some (h, None)) \/
   (exists c h,
       e = errors_withMessage c "failed to examine existing lock" /\
       w' = w /\ Holder fuel p w = Some (h, Some c)) \/
   (exists c,
       e = errors_withMessage c "failed to write pidfile" /\
       w' = made_dirs (lock_pidfile p) w /\
       Holder fuel p w = Some (0, None) /\
       fst (Write (lock_pidfile p) (resolve_pid w pid) w) = Some c)).
Proof.
  intros HL. split.
  { destruct (Lock_error_files _ _ _ _ _ _ HL) as [-> | ->]; reflexivity. }
  unfold Lock in HL. fold (resolve_pid w pid) in HL.
  destruct (Holder fuel p w) as [[h [c|]]|]; [| |discriminate].
  - right. left. injection HL as <- <-. eauto.
  - destruct (h =? 0) eqn:Hh; cbn [negb] in HL.
    + apply Z.eqb_eq in Hh. subst h. right. right.
      destruct (Write (lock_pidfile p) (resolve_pid w pid) w)
        as [[c|] w1] eqn:HW; [|discriminate].
      injection HL as <- <-. apply Write_error_made_dirs in HW.
      exists c. auto.
    + apply Z.eqb_neq in Hh. left. injection HL as <- <-. eauto.
Qed.

(** The pidfile records process 13, which may not be looked at; process 42
    calls [Lock(0)]. *)
Lemma Lock_failure_witness :
  let w := example_world (example_file "13" (time_Unix 900 0)) in
  exists e,
    Lock 0 the_lock 0 w = Some (Some e, w) /\
    files w = files w /\
    ((e = os_ErrExist /\ w = w /\
      exists h, h <> 0 /\ Holder 0 the_lock w = Some (h, None)) \/
     (exists c h,
         e = errors_withMessage c "failed to examine existing lock" /\
         w = w /\ Holder 0 the_lock w = Some (h, Some c)) \/
     (exists c,
         e = errors_withMessage c "failed to write pidfile" /\
         w = made_dirs the_pidfile w /\
         Holder 0 the_lock w = Some (0, None) /\
         fst (Write the_pidfile (resolve_pid w 0) w) = Some c)).
Proof.
  cbv zeta. eexists. split; [reflexivity|].
  exact (Lock_failure 0 the_lock 0
           (example_world (example_file "13" (time_Unix 900 0))) _ _ eq_refl).
Defined.

Lemma Unlock_absent (fuel : nat) (p : pidfileLock) (pid : Pid) (w : World) :
  files w !! path (lock_pidfile p) = None ->
  fault_ReadFile w (path (lock_pidfile p)) = None ->
  Unlock (S fuel) p pid w = Some (Some os_ErrNotExist, w).
Proof.
  intros H Hf. eapply Unlock_not_exist;
    [apply ioutil_ReadFile_absent; assumption | reflexivity].
Qed.

(** X17.  [Unlock] changes the world only when it returns nil: with an
    error the world is the one before the call; with nil the pidfile, which
    was there, is removed and every other path holds what it held. *)
Theorem Unlock_frame (fuel : nat) (p : pidfileLock) (pid : Pid)
        (w w' : World) (r : option error) :
  Unlock fuel p pid w = Some (r, w') ->
  match r with
  | Some _ => w' = w
  | None =>
      w' = removed (lock_pidfile p) w /\
      is_Some (files w !! path (lock_pidfile p)) /\
      files w' !! path (lock_pidfile p) = None /\
      forall q : string,
        q <> path (lock_pidfile p) -> files w' !! q = files w !! q
  end.
Proof.
  unfold Unlock.
  destruct (Read_mtime (lock_pidfile p) w) as [[lockPid mt] [e|]] eqn:HR.
  - destruct (isWrappedNotExist fuel (Some e)) as [[|]|]; simpl;
      [intros [= <- <-]; reflexivity
      |intros [= <- <-]; reflexivity|discriminate].
  - destruct (lockValid w lockPid mt) as [[|] [e|]]; simpl;
      try (intros [= <- <-]; reflexivity).
    destruct (negb (lockPid =? _)); [intros [= <- <-]; reflexivity|].
    unfold os_Remove.
    destruct (fault_Remove w (path (lock_pidfile p)));
      [simpl; intros [= <- <-]; reflexivity|].
    destruct (files w !! path (lock_pidfile p)) as [f|] eqn:Hf;
      [|simpl; intros [= <- <-]; reflexivity].
    intros [= <- <-]. split; [reflexivity|]. split; [eauto|].
    cbn [set_files files]. split; [apply lookup_delete_eq|].
    intros q Hq. apply lookup_delete_ne. congruence.
Qed.

(** Process 42 holds the lock and releases it. *)
Lemma Unlock_frame_witness :
  let w := example_world (example_file "42" (time_Unix 1000 0)) in
  removed the_pidfile w = removed the_pidfile w /\
  is_Some (files w !! pidpath) /\
  files (removed the_pidfile w) !! pidpath = None /\
  forall q : string,
    q <> pidpath -> files (removed the_pidfile w) !! q = files w !! q.
Proof.
  exact (Unlock_frame 0 the_lock 0
           (example_world (example_file "42" (time_Unix 1000 0)))
           _ None eq_refl).
Defined.

(** X18.  A lock is released once: after an [Unlock] that returned nil,
    [Holder] reports no holder and another [Unlock], with any pid, returns
    [os.ErrNotExist] and changes nothing. *)
Theorem Unlock_twice (fuel fuel' : nat) (p : pidfileLock) (pid pid' : Pid)
        (w w' : World) :
  Unlock fuel p pid w = Some (None, w') ->
  Holder (S fuel') p w' = Some (0, None) /\
  Unlock (S fuel') p pid' w' = Some (Some os_ErrNotExist, w').
Proof.
  intros HU.
  assert (files w' !! path (lock_pidfile p) = None /\
          fault_ReadFile w' (path (lock_pidfile p)) = None) as [Habs Hf].
  { unfold Unlock in HU.
    destruct (Read_mtime (lock_pidfile p) w) as [[lockPid mt] [e|]] eqn:HR.
    - destruct (isWrappedNotExist fuel (Some e)) as [[|]|]; discriminate.
    - apply Read_mtime_no_fault in HR.
      destruct (lockValid w lockPid mt) as [[|] [e|]]; try discriminate.
      destruct (negb (lockPid =? _)); [discriminate|].
      unfold os_Remove in HU.
      destruct (fault_Remove w (path (lock_pidfile p))); [discriminate|].
      destruct (files w !! path (lock_pidfile p)); [|discriminate].
      injection HU as <-. cbn [set_files files fault_ReadFile].
      split; [apply lookup_delete_eq | exact HR]. }
  split; [apply Holder_absent | apply Unlock_absent]; assumption.
Qed.

(** Process 42 releases its lock and tries again. *)
Lemma Unlock_twice_witness :
  let w' := removed the_pidfile
              (example_world (example_file "42" (time_Unix 1000 0))) in
  Holder 1 the_lock w' = Some (0, None) /\
  Unlock 1 the_lock 0 w' = Some (Some os_ErrNotExist, w').
Proof.
  exact (Unlock_twice 0 0 the_lock 0 0
           (example_world (example_file "42" (time_Unix 1000 0))) _ eq_refl).
Defined.

(** X19.  [Unlock] returns nil exactly when the record is read, [lockValid]
    finds the lock valid, the recorded pid is the pid asked for (the
    caller's own for 0) and the removal does not fail; the world is then
    the one without the pidfile. *)
Theorem Unlock_succeeds_iff (fuel : nat) (p : pidfileLock) (pid : Pid)
        (w w' : World) :
  Unlock fuel p pid w = Some (None, w') <->
  exists (lockPid : Pid) (mt : Time),
    Read_mtime (lock_pidfile p) w = (lockPid, mt, None) /\
    lockValid w lockPid mt = (true, None) /\
    lockPid = resolve_pid w pid /\
    fault_Remove w (path (lock_pidfile p)) = None /\
    w' = removed (lock_pidfile p) w.
Proof.
  split.
  - unfold Unlock. fold (resolve_pid w pid).
    destruct (Read_mtime (lock_pidfile p) w) as [[lockPid mt] [e|]] eqn:HR.
    + destruct (isWrappedNotExist fuel (Some e)) as [[|]|]; discriminate.
    + destruct (lockValid w lockPid mt) as [[|] [e|]] eqn:HV; try discriminate.
      destruct (Z.eqb_spec lockPid (resolve_pid w pid)) as [Heq|];
        cbn [negb]; [|discriminate].
      unfold os_Remove.
      destruct (fault_Remove w (path (lock_pidfile p))) eqn:Hrm;
        [discriminate|].
      destruct (files w !! path (lock_pidfile p)); [|discriminate].
      intros [= <-]. exists lockPid, mt. auto.
  - intros (lockPid & mt & HR & HV & Heq & Hrm & ->).
    rewrite (Unlock_read _ _ _ _ _ _ HR), HV. cbv zeta.
    fold (resolve_pid w pid). rewrite <- Heq, Z.eqb_refl. cbn [negb].
    destruct (Read_mtime_present _ _ _ _ HR) as (f & Hf & _).
    unfold os_Remove. rewrite Hrm, Hf. reflexivity.
Qed.

(** Process 42 holds the lock and calls [Unlock(0)]. *)
Lemma Unlock_succeeds_iff_witness :
  let w := example_world (example_file "42" (time_Unix 1000 0)) in
  Unlock 0 the_lock 0 w = Some (None, removed the_pidfile w).
Proof.
  apply (proj2 (Unlock_succeeds_iff 0 the_lock 0
                  (example_world (example_file "42" (time_Unix 1000 0)))
                  (removed the_pidfile
                     (example_world (example_file "42" (time_Unix 1000 0)))))).
  exists 42, (time_Unix 1000 0). repeat split.
Defined.
